(** * Urdu -> English voice translator: a shallow embedding of [app.py]

    The script records Urdu speech, transcribes it, translates it to English
    and speaks the result.  Speech recognition, translation and synthesis are
    third-party models; what the script itself contributes is string
    processing between the stages, the error policy of every stage and the
    control flow of [main].  Those are what is modelled and verified here.

    - Python [str] is a sequence of Unicode code points: [list N].
    - NumPy [float32] samples are IEEE-754 binary32 values ([spec_float]).
    - External calls (sounddevice, scipy, pydub, whisper, transformers,
      pyttsx3, os) are answered by an environment [Env]; every call is
      recorded in a trace, so that "is (not) invoked" is a statement about
      the trace.
    - Python exceptions are values; [try: ... except Exception] catches the
      instances of [Exception] only.
    - [print] writes to a stream with an encoding: on a stream that cannot
      encode a character of the line it raises UnicodeEncodeError and
      prints nothing. *)

From Stdlib Require Import List NArith ZArith Bool Arith Lia String Ascii.
From Stdlib Require Import DecimalString.
From Stdlib Require Import SpecFloat.
Import ListNotations.

Set Implicit Arguments.

(* ===================================================================== *)
(** * Python strings                                                      *)
(* ===================================================================== *)

Module PyStr.

(** A Python [str]: its code points, in order.  [len] counts code points. *)
Definition str := list N.

Definition len (s : str) : Z := Z.of_nat (List.length s).

(** An ASCII literal of the source, as code points. *)
Fixpoint lit (s : string) : str :=
  match s with
  | EmptyString => []
  | String a r => N_of_ascii a :: lit r
  end.

Fixpoint eqb (a b : str) : bool :=
  match a, b with
  | [], [] => true
  | x :: a', y :: b' => N.eqb x y && eqb a' b'
  | _, _ => false
  end.

(** [s.startswith(p)] *)
Fixpoint startswith (p s : str) : bool :=
  match p, s with
  | [], _ => true
  | x :: p', y :: s' => N.eqb x y && startswith p' s'
  | _ :: _, [] => false
  end.

(** The scan of [str.replace] for a non-empty pattern: left to right, every
    match is replaced and the scan resumes after the match (matches do not
    overlap).  [skip] counts the characters of the current match that are
    still to be passed over. *)
Fixpoint replace_scan (old new : str) (skip : nat) (s : str) : str :=
  match s with
  | [] => []
  | c :: s' =>
      match skip with
      | S k => replace_scan old new k s'
      | O =>
          if startswith old s
          then new ++ replace_scan old new (List.length old - 1) s'
          else c :: replace_scan old new 0 s'
      end
  end.

(** [s.replace(old, new)].  With an empty pattern Python inserts [new]
    before every character and at the end. *)
Definition replace (s old new : str) : str :=
  match old with
  | [] => new ++ flat_map (fun c => c :: new) s
  | _ :: _ => replace_scan old new 0 s
  end.

(** [c.isspace()] for one code point (CPython's [_PyUnicode_IsWhitespace]). *)
Definition isspace (c : N) : bool :=
  (((0x9 <=? c) && (c <=? 0xD)) || ((0x1C <=? c) && (c <=? 0x20))
   || (c =? 0x85) || (c =? 0xA0) || (c =? 0x1680)
   || ((0x2000 <=? c) && (c <=? 0x200A))
   || (c =? 0x2028) || (c =? 0x2029) || (c =? 0x202F) || (c =? 0x205F)
   || (c =? 0x3000))%N.

Fixpoint lstrip (s : str) : str :=
  match s with
  | [] => []
  | c :: s' => if isspace c then lstrip s' else s
  end.

Definition rstrip (s : str) : str := rev (lstrip (rev s)).

(** [s.strip()] *)
Definition strip (s : str) : str := rstrip (lstrip s).

(** The string has no whitespace at either end. *)
Definition stripped (s : str) : Prop :=
  match s with
  | [] => True
  | c :: _ => isspace c = false /\ isspace (last s c) = false
  end.

End PyStr.
Import PyStr.

(** The Urdu literals of the source, by code point. *)
Definition U_HE   : str := [0x6C1; 0x6D2]%N.          (* U+06C1 U+06D2 *)
Definition U_HAIN : str := [0x6C1; 0x6CC; 0x6BA]%N.   (* U+06C1 U+06CC U+06BA *)
Definition U_MAIN : str := [0x645; 0x6CC; 0x6BA]%N.   (* U+0645 U+06CC U+06BA *)
Definition U_FULL_STOP : str := [0x6D4]%N.            (* U+06D4 *)
Definition SPACE : N := 0x20%N.
Definition PERIOD : N := 0x2E%N.

(* ===================================================================== *)
(** * The correction map of [transcribe_urdu] (lines 89-95)               *)
(* ===================================================================== *)

(** The dict literal, in insertion order (the order of [.items()]). *)
Definition corrections : list (str * str) :=
  [ (U_HE, U_HE); (U_HAIN, U_HAIN); (U_MAIN, U_MAIN) ].

(** [for wrong, correct in corrections.items(): text = text.replace(wrong, correct)] *)
Definition apply_corrections (text : str) : str :=
  fold_left (fun t kv => replace t (fst kv) (snd kv)) corrections text.


(** [text = urdu_text.replace(U+06D4, ".").replace(HE, " " HE " ")] (line 110) *)
Definition preprocess (urdu_text : str) : str :=
  replace (replace urdu_text U_FULL_STOP [PERIOD]) U_HE (SPACE :: U_HE ++ [SPACE]).

(** The post-translation fixes (lines 118-124), in insertion order. *)
Definition fixes : list (str * str) :=
  [ (lit "I am", lit "I"); (lit "you are", lit "you"); (lit "he is", lit "he") ].

Definition apply_fixes (english : str) : str :=
  fold_left (fun t kv => replace t (fst kv) (snd kv)) fixes english.

(** Truth value of a [str]: the empty string is falsy. *)
Definition truthy (s : str) : bool :=
  match s with [] => false | _ :: _ => true end.

(** [str(n)] for an integer. *)
Definition str_of_Z (n : Z) : str := lit (NilZero.string_of_int (Z.to_int n)).

(* ===================================================================== *)
(** * NumPy float32 buffers                                               *)
(* ===================================================================== *)

Module F32.

Definition float32 := spec_float.
Definition prec : Z := 24.
Definition emax : Z := 128.

Definition zero : float32 := S754_zero false.
Definition nan : float32 := S754_nan.

Definition is_nan (x : float32) : bool :=
  match x with S754_nan => true | _ => false end.

Definition is_zero (x : float32) : bool :=
  match x with S754_zero _ => true | _ => false end.

(** [x / y] on float32 (round to nearest even); 0/0 is NaN, no exception. *)
Definition div (x y : float32) : float32 := SFdiv prec emax x y.

(** [np.maximum]: the larger of the two, NaN if either is NaN. *)
Definition maximum (a b : float32) : float32 :=
  if is_nan a then a else if is_nan b then b else if SFltb a b then b else a.

(** [np.abs(a)] *)
Definition np_abs (a : list float32) : list float32 := map SFabs a.

(** [np.max(a)]; [None] stands for the ValueError on an empty array. *)
Definition np_max (a : list float32) : option float32 :=
  match a with
  | [] => None
  | x :: r => Some (fold_left maximum r x)
  end.

(** [a / d]: every element divided by the scalar [d]. *)
Definition np_div (a : list float32) (d : float32) : list float32 :=
  map (fun x => div x d) a.

End F32.

(* ===================================================================== *)
(** * Exceptions, the environment and the state                           *)
(* ===================================================================== *)

(** A raised exception.  [Exc] is any instance of [Exception] (ValueError,
    OSError, PortAudioError, ...); the other two derive from
    [BaseException] only. *)
Inductive exn : Type :=
| Exc (cls : string) (text : str)
| KeyboardInterrupt
| SystemExit.

Definition isinstance_Exception (e : exn) : bool :=
  match e with Exc _ _ => true | _ => false end.

(** [str(e)] *)
Definition exn_str (e : exn) : str :=
  match e with Exc _ text => text | _ => [] end.

(** The calls that leave the script, with the arguments that vary. *)
Inductive call : Type :=
| sd_rec (frames samplerate channels : Z)
| sd_wait
| wavfile_write (filename : str) (rate : Z) (data : list F32.float32)
| AudioSegment_from_wav (filename : str)
| AudioSegment_normalize
| AudioSegment_export (filename : str)
| os_path_abspath (filename : str)
| whisper_transcribe (audio_path language initial_prompt : str)
| tokenizer_encode (text : str)
| translator_generate (inputs : list Z)
| tokenizer_decode (ids : list Z)
| tts_say (text : str)
| tts_runAndWait
| os_remove (path : str).

(** The functions of the script. *)
Inductive func : Type :=
| f_record_urdu_audio | f_transcribe_urdu | f_translate_urdu | f_main.

(** What a run leaves behind: entries into the script's functions (ghost
    events, for call counting), external calls, and console lines. *)
Inductive event : Type :=
| Enter (f : func)
| Call (c : call)
| Console (text : str).

(** The encoding of [sys.stdout].  A Unicode stream (UTF-8, UTF-16,
    GB18030) encodes every character of a well-formed [str].  A legacy
    code page (cp1252, ascii, latin-1, ...) encodes ASCII and whatever
    else its table holds, but none of the pictographs the script prints;
    it also determines the text of the UnicodeEncodeError for a line. *)
Inductive stdout_encoding : Type :=
| UnicodeStream
| LegacyStream (table : N -> bool) (error_text : str -> str).

(** The pictographs of the script's console lines: U+2705, U+274C, and
    those of plane 1 (U+1F3A4, U+1F50D, U+1F4DD, U+1F30D, U+1F50A). *)
Definition is_pictograph (c : N) : bool :=
  ((c =? 0x2705) || (c =? 0x274C) || ((0x1F000 <=? c) && (c <=? 0x1FFFF)))%N.

Definition printable (enc : stdout_encoding) (c : N) : bool :=
  match enc with
  | UnicodeStream => true
  | LegacyStream table _ => (c <? 0x80)%N || (table c && negb (is_pictograph c))
  end.

(** The exception [print] raises for a line the stream cannot encode. *)
Definition encode_error (enc : stdout_encoding) (text : str) : exn :=
  Exc "UnicodeEncodeError"
      (match enc with
       | UnicodeStream => []
       | LegacyStream _ error_text => error_text text
       end).

(** The world outside the script during one run: which call fails and
    with what, what the devices and models answer, and what the console
    can show. *)
Record Env : Type := {
  raises     : call -> option exn;
  stdout     : stdout_encoding;
  recorded   : list F32.float32;           (* the buffer of [sd.rec] *)
  abspath    : str -> str;
  transcript : str -> str;                 (* [result["text"]] *)
  encoded    : str -> list Z;
  generated  : list Z -> list (list Z);
  decoded    : list Z -> str
}.

Record State : Type := {
  trace : list event;                      (* oldest first *)
  files : list str                         (* the paths that exist *)
}.

Definition log (ev : event) (st : State) : State :=
  {| trace := trace st ++ [ev]; files := files st |}.

Definition file_exists (path : str) (st : State) : bool :=
  existsb (PyStr.eqb path) (files st).

Definition unlink (path : str) (st : State) : State :=
  {| trace := trace st;
     files := filter (fun p => negb (PyStr.eqb path p)) (files st) |}.

Definition touch (path : str) (st : State) : State :=
  {| trace := trace st;
     files := if file_exists path st then files st else path :: files st |}.

(* ===================================================================== *)
(** * The monad: environment, state and exceptions                        *)
(* ===================================================================== *)

Inductive outcome (A : Type) : Type :=
| Return (a : A)
| Raise (e : exn).
Arguments Return {A} a.
Arguments Raise {A} e.

Definition M (A : Type) : Type := Env -> State -> outcome A * State.

Definition ret {A} (a : A) : M A := fun _ st => (Return a, st).

Definition bind {A B} (m : M A) (k : A -> M B) : M B :=
  fun env st =>
    match m env st with
    | (Return a, st') => k a env st'
    | (Raise e, st') => (Raise e, st')
    end.

Definition raise {A} (e : exn) : M A := fun _ st => (Raise e, st).

Notation "x <- m ;; k" := (bind m (fun x => k))
  (at level 61, m at next level, right associativity).
Notation "m ;; k" := (bind m (fun _ => k))
  (at level 61, right associativity).

(** [try: body  except Exception as e: handler e].  Only instances of
    [Exception] are caught; anything else keeps propagating. *)
Definition try_except_Exception {A} (body : M A) (handler : exn -> M A) : M A :=
  fun env st =>
    match body env st with
    | (Return a, st') => (Return a, st')
    | (Raise e, st') =>
        if isinstance_Exception e then handler e env st' else (Raise e, st')
    end.

Definition asks {A} (f : Env -> A) : M A := fun env st => (Return (f env), st).

Definition enter (f : func) : M unit := fun _ st => (Return tt, log (Enter f) st).

(** The stream of this run can encode the whole line. *)
Definition can_print (env : Env) (text : str) : bool :=
  forallb (printable (stdout env)) text.

(** [print(text)]: the line appears on the console, or, when the stream
    cannot encode it, nothing appears and UnicodeEncodeError is raised.
    The stream is taken to be open. *)
Definition print (text : str) : M unit :=
  fun env st =>
    if can_print env text then (Return tt, log (Console text) st)
    else (Raise (encode_error (stdout env) text), st).

(** An external call: recorded, then it fails or returns as the
    environment says. *)
Definition extcall (c : call) : M unit :=
  fun env st =>
    match raises env c with
    | Some e => (Raise e, log (Call c) st)
    | None => (Return tt, log (Call c) st)
    end.

Definition create_file (path : str) : M unit :=
  fun _ st => (Return tt, touch path st).

(** [os.remove(path)]: unlinks the file, FileNotFoundError if it is absent. *)
Definition remove_file (path : str) : M unit :=
  extcall (os_remove path) ;;
  fun _ st =>
    if file_exists path st then (Return tt, unlink path st)
    else (Raise (Exc "FileNotFoundError" path), st).

(* ===================================================================== *)
(** * The stages                                                          *)
(* ===================================================================== *)

Definition urdu_audio_wav : str := lit "urdu_audio.wav".

(** What [np.max] raises on an empty array, and what indexing an empty
    sequence raises. *)
Definition empty_buffer_error : exn :=
  Exc "ValueError"
      (lit "zero-size array to reduction operation maximum which has no identity").

Definition empty_batch_error : exn :=
  Exc "IndexError" (lit "list index out of range").

(** [initial_prompt], line 81 *)
Definition initial_prompt : str :=
  [0x6CC; 0x6C1; 0x20; 0x627; 0x631; 0x62F; 0x648; 0x20; 0x645; 0x6CC; 0x6BA;
   0x20; 0x6AF; 0x641; 0x62A; 0x6AF; 0x648; 0x20; 0x6C1; 0x6D2]%N.

(** [record_urdu_audio(filename, duration)], lines 16-41 *)
Definition record_urdu_audio (filename : str) (duration : Z) : M bool :=
  enter f_record_urdu_audio ;;
  try_except_Exception
    (let fs := 44100%Z in
     print ([0xA; 0x1F3A4]%N ++ lit " Speak Urdu clearly for "
            ++ str_of_Z duration ++ lit " seconds...") ;;
     extcall (sd_rec (duration * fs) fs 1) ;;
     audio <- asks recorded ;;
     extcall sd_wait ;;
     (* audio = audio / np.max(np.abs(audio)) *)
     peak <- match F32.np_max (F32.np_abs audio) with
             | Some m => ret m
             | None => raise empty_buffer_error
             end ;;
     let audio := F32.np_div audio peak in
     extcall (wavfile_write filename fs audio) ;;
     create_file filename ;;
     extcall (AudioSegment_from_wav filename) ;;
     extcall AudioSegment_normalize ;;
     extcall (AudioSegment_export filename) ;;
     create_file filename ;;
     extcall (os_path_abspath filename) ;;
     path <- asks (fun env => abspath env filename) ;;
     print ([0x2705]%N ++ lit " Saved to " ++ path) ;;
     ret true)
    (fun e =>
       print ([0x274C]%N ++ lit " Recording failed: " ++ exn_str e) ;;
       ret false).

(** [transcribe_urdu(audio_path)], lines 74-100.  The other arguments of the
    model call are constants (temperature 0.2, fp16 off). *)
Definition transcribe_urdu (audio_path : str) : M (option str) :=
  enter f_transcribe_urdu ;;
  try_except_Exception
    (extcall (whisper_transcribe audio_path (lit "ur") initial_prompt) ;;
     result_text <- asks (fun env => transcript env audio_path) ;;
     let text := strip result_text in
     let text := apply_corrections text in
     ret (Some text))
    (fun e =>
       print ([0x274C]%N ++ lit " Transcription failed: " ++ exn_str e) ;;
       ret None).

(** [translate_urdu(urdu_text)], lines 104-129.  The argument is a [str] or
    [None]. *)
Definition translate_urdu (urdu_text : option str) : M (option str) :=
  enter f_translate_urdu ;;
  try_except_Exception
    (match urdu_text with
     | None => ret None                                (* [not None] *)
     | Some s =>
         if negb (truthy s) || (len s <? 3)%Z then ret None
         else
           let text := preprocess s in
           extcall (tokenizer_encode text) ;;
           inputs <- asks (fun env => encoded env text) ;;
           extcall (translator_generate inputs) ;;
           outputs <- asks (fun env => generated env inputs) ;;
           first <- match outputs with
                    | o :: _ => ret o
                    | [] => raise empty_batch_error
                    end ;;
           extcall (tokenizer_decode first) ;;
           english <- asks (fun env => decoded env first) ;;
           let english := apply_fixes english in
           ret (Some english)
     end)
    (fun e =>
       print ([0x274C]%N ++ lit " Translation failed: " ++ exn_str e) ;;
       ret None).

(** Lines 152-155: the speech stage, inline in [main]. *)
Definition speak (english_text : str) : M unit :=
  print ([0xA; 0x1F50A]%N ++ lit " Speaking...") ;;
  extcall (tts_say english_text) ;;
  extcall tts_runAndWait.

(** [main()], lines 133-158.  [if not x: return] is spelled out on the two
    falsy values of a [str | None]: [None] and the empty string. *)
Definition main : M unit :=
  enter f_main ;;
  ok <- record_urdu_audio urdu_audio_wav 7 ;;
  if negb ok then ret tt
  else
    print ([0xA; 0x1F50D]%N ++ lit " Transcribing...") ;;
    urdu_text <- transcribe_urdu urdu_audio_wav ;;
    match urdu_text with
    | None => ret tt
    | Some u =>
        if negb (truthy u) then ret tt
        else
          print ([0x1F4DD]%N ++ lit " Urdu: " ++ u) ;;
          print ([0xA; 0x1F30D]%N ++ lit " Translating...") ;;
          english_text <- translate_urdu (Some u) ;;
          match english_text with
          | None => ret tt
          | Some e =>
              if negb (truthy e) then ret tt
              else
                print ([0x2705]%N ++ lit " English: " ++ e) ;;
                speak e ;;
                remove_file urdu_audio_wav
          end
    end.

(** The stages of the pipeline, and the event that marks the start of
    each: the entry into the stage's function, or the stage's first
    external call where the stage is inline in [main]. *)
Inductive stage : Type :=
| Recording | Transcribing | Translating | Speaking | Cleanup.

Definition starts (s : stage) (ev : event) : bool :=
  match s, ev with
  | Recording, Enter f_record_urdu_audio => true
  | Transcribing, Enter f_transcribe_urdu => true
  | Translating, Enter f_translate_urdu => true
  | Speaking, Call (tts_say _) => true
  | Cleanup, Call (os_remove _) => true
  | _, _ => false
  end.

(** How many times stage [s] was started in the run so far. *)
Definition invocations (s : stage) (st : State) : nat :=
  List.length (filter (starts s) (trace st)).

Definition empty_state : State := {| trace := []; files := [] |}.

(* ===================================================================== *)
(** * Vocabulary of the statements                                        *)
(* ===================================================================== *)

(** The argument of [translate_urdu] is [None] or shorter than 3. *)
Definition too_short (v : option str) : Prop :=
  match v with
  | None => True
  | Some s => (len s < 3)%Z
  end.

(** The order of the stages in the pipeline. *)
Definition stage_index (s : stage) : nat :=
  match s with
  | Recording => 0 | Transcribing => 1 | Translating => 2
  | Speaking => 3 | Cleanup => 4
  end.

Definition later (s s' : stage) : Prop := (stage_index s < stage_index s')%nat.

(** Every run of [m] relates the state before to the state after by [R]. *)
Definition framed (R : State -> State -> Prop) {A} (m : M A) : Prop :=
  forall env st, R st (snd (m env st)).

(** The run did not start stage [s] again. *)
Definition same_invocations (s : stage) (st st' : State) : Prop :=
  invocations s st' = invocations s st.

Definition same_files (st st' : State) : Prop := files st' = files st.

(** The stages as [main] runs them: each with the console lines that
    [main] prints before it; a line that cannot be printed ends the stage
    with the exception of [print]. *)
Definition run_record (env : Env) (st : State) : outcome bool * State :=
  record_urdu_audio urdu_audio_wav 7 env (log (Enter f_main) st).

Definition run_transcribe (env : Env) (st1 : State) : outcome (option str) * State :=
  (print ([0xA; 0x1F50D]%N ++ lit " Transcribing...") ;;
   transcribe_urdu urdu_audio_wav) env st1.

Definition run_translate (env : Env) (u : str) (st2 : State)
  : outcome (option str) * State :=
  (print ([0x1F4DD]%N ++ lit " Urdu: " ++ u) ;;
   print ([0xA; 0x1F30D]%N ++ lit " Translating...") ;;
   translate_urdu (Some u)) env st2.

Definition run_speak (env : Env) (e : str) (st3 : State) : outcome unit * State :=
  (print ([0x2705]%N ++ lit " English: " ++ e) ;; speak e) env st3.

(** A stage hands its failure sentinel to [main]: [False] from recording,
    [None] from transcription or translation.  The last index is the state
    at that moment. *)
Inductive returns_sentinel (env : Env) (st : State) : stage -> State -> Prop :=
| sentinel_recording st1 :
    run_record env st = (Return false, st1) ->
    returns_sentinel env st Recording st1
| sentinel_transcribing st1 st2 :
    run_record env st = (Return true, st1) ->
    run_transcribe env st1 = (Return None, st2) ->
    returns_sentinel env st Transcribing st2
| sentinel_translating st1 u st2 st3 :
    run_record env st = (Return true, st1) ->
    run_transcribe env st1 = (Return (Some u), st2) ->
    truthy u = true ->
    run_translate env u st2 = (Return None, st3) ->
    returns_sentinel env st Translating st3.

(** A stage hands [main] the empty string: not [None], but falsy. *)
Inductive returns_empty (env : Env) (st : State) : stage -> State -> Prop :=
| empty_transcript st1 st2 :
    run_record env st = (Return true, st1) ->
    run_transcribe env st1 = (Return (Some []), st2) ->
    returns_empty env st Transcribing st2
| empty_translation st1 u st2 st3 :
    run_record env st = (Return true, st1) ->
    run_transcribe env st1 = (Return (Some u), st2) ->
    truthy u = true ->
    run_translate env u st2 = (Return (Some []), st3) ->
    returns_empty env st Translating st3.

(** Recording, transcription, translation and speech all succeed, in the
    sense [main] tests: recording returns [True], transcription and
    translation return non-empty strings, the speech calls do not raise.
    The index is the state when speech has finished. *)
Inductive all_stages_succeed (env : Env) (st : State) : State -> Prop :=
| stages_ok st1 u st2 e st3 st4 :
    run_record env st = (Return true, st1) ->
    run_transcribe env st1 = (Return (Some u), st2) ->
    truthy u = true ->
    run_translate env u st2 = (Return (Some e), st3) ->
    truthy e = true ->
    run_speak env e st3 = (Return tt, st4) ->
    all_stages_succeed env st st4.

(** The console line of the handler in [record_urdu_audio]. *)
Definition recording_failed (e : exn) : str :=
  [0x274C]%N ++ lit " Recording failed: " ++ exn_str e.

(** The first console line of [record_urdu_audio] (line 19). *)
Definition recording_prompt (duration : Z) : str :=
  [0xA; 0x1F3A4]%N ++ lit " Speak Urdu clearly for "
    ++ str_of_Z duration ++ lit " seconds...".

(** Among the events [evs] of a run, [e] was raised by an external call,
    or by a [print] whose line the stream could not encode. *)
Definition raised_inside (env : Env) (evs : list event) (e : exn) : Prop :=
  (exists c, In (Call c) evs /\ raises env c = Some e) \/
  (exists text, can_print env text = false /\ e = encode_error (stdout env) text).

(** A buffer of silence: every sample is a zero. *)
Definition silent (a : list F32.float32) : Prop :=
  Forall (fun x => F32.is_zero x = true) a.

(** "Replaces every occurrence of the Urdu full stop with a Latin period",
    said character by character. *)
Definition latin_periods (s : str) : str :=
  map (fun c => if (c =? 0x6D4)%N then PERIOD else c) s.

(** The padded word: a space, U+06C1 U+06D2, a space. *)
Definition PADDED_HE : str := SPACE :: U_HE ++ [SPACE].

(** The scan that pads the two-character word [a b] with [sp]. *)
Definition pad_scan (a b sp : N) (t : str) : str :=
  replace_scan [a; b] [sp; a; b; sp] 0 t.

(** Environments for concrete runs. *)
Definition one : F32.float32 := S754_finite false 8388608 (-23).
Definition half : F32.float32 := S754_finite false 8388608 (-24).

(** Everything works: a short Urdu sentence is heard and translated. *)
Definition env_ok : Env :=
  {| raises := fun _ => None;
     stdout := UnicodeStream;
     recorded := [half; SFopp one; F32.zero];
     abspath := fun p => lit "/home/user/" ++ p;
     transcript := fun _ => [SPACE] ++ U_MAIN ++ [SPACE] ++ U_HE ++ U_FULL_STOP ++ [SPACE];
     encoded := fun _ => [17; 4; 0]%Z;
     generated := fun _ => [[5; 9; 0]%Z];
     decoded := fun _ => lit "I am here" |}.

(** The same, with the device, the recognizer or the translator replaced. *)
Definition with_raises (f : call -> option exn) (env : Env) : Env :=
  {| raises := f; stdout := stdout env; recorded := recorded env; abspath := abspath env;
     transcript := transcript env; encoded := encoded env;
     generated := generated env; decoded := decoded env |}.

Definition with_recorded (a : list F32.float32) (env : Env) : Env :=
  {| raises := raises env; stdout := stdout env; recorded := a; abspath := abspath env;
     transcript := transcript env; encoded := encoded env;
     generated := generated env; decoded := decoded env |}.

Definition with_transcript (t : str) (env : Env) : Env :=
  {| raises := raises env; stdout := stdout env;
     recorded := recorded env; abspath := abspath env;
     transcript := fun _ => t; encoded := encoded env;
     generated := generated env; decoded := decoded env |}.

Definition with_decoded (t : str) (env : Env) : Env :=
  {| raises := raises env; stdout := stdout env;
     recorded := recorded env; abspath := abspath env;
     transcript := transcript env; encoded := encoded env;
     generated := generated env; decoded := fun _ => t |}.

Definition with_stdout (enc : stdout_encoding) (env : Env) : Env :=
  {| raises := raises env; stdout := enc;
     recorded := recorded env; abspath := abspath env;
     transcript := transcript env; encoded := encoded env;
     generated := generated env; decoded := decoded env |}.

(** A Windows console on code page 1252.  Beyond ASCII the code page
    holds U+00A0..U+00FF and the 27 characters of its bytes 0x80..0x9F. *)
Definition cp1252_table (c : N) : bool :=
  ((0xA0 <=? c) && (c <=? 0xFF))%N ||
  existsb (N.eqb c)
    [ 0x152; 0x153; 0x160; 0x161; 0x178; 0x17D; 0x17E; 0x192; 0x2C6; 0x2DC;
      0x2013; 0x2014; 0x2018; 0x2019; 0x201A; 0x201C; 0x201D; 0x201E;
      0x2020; 0x2021; 0x2022; 0x2026; 0x2030; 0x2039; 0x203A; 0x20AC;
      0x2122 ]%N.

Definition hex_digit (d : N) : N :=
  (if d <? 10 then 48 + d else 87 + d)%N.

(** [n] in lower-case hexadecimal, [width] digits. *)
Fixpoint hex_fixed (width : nat) (n : N) : str :=
  match width with
  | O => []
  | S w => hex_fixed w (n / 16)%N ++ [hex_digit (n mod 16)%N]
  end.

(** A character as UnicodeEncodeError shows it: \xNN, \uNNNN or
    \UNNNNNNNN. *)
Definition escaped (c : N) : str :=
  if (c <=? 0xFF)%N then lit "\x" ++ hex_fixed 2 c
  else if (c <=? 0xFFFF)%N then lit "\u" ++ hex_fixed 4 c
  else lit "\U" ++ hex_fixed 8 c.

(** How many characters at the front of [s] the codec refuses. *)
Fixpoint refused_run (ok : N -> bool) (s : str) : N :=
  match s with
  | [] => 0
  | c :: t => if ok c then 0 else (1 + refused_run ok t)%N
  end.

(** [str(e)] of the UnicodeEncodeError of a charmap codec: it names the
    first run of characters the codec refuses. *)
Fixpoint charmap_error (ok : N -> bool) (pos : N) (s : str) : str :=
  match s with
  | [] => []
  | c :: t =>
      if ok c then charmap_error ok (pos + 1)%N t
      else
        let more := refused_run ok t in
        if (more =? 0)%N
        then lit "'charmap' codec can't encode character '" ++ escaped c
             ++ lit "' in position " ++ str_of_Z (Z.of_N pos)
             ++ lit ": character maps to <undefined>"
        else lit "'charmap' codec can't encode characters in position "
             ++ str_of_Z (Z.of_N pos) ++ lit "-" ++ str_of_Z (Z.of_N (pos + more))
             ++ lit ": character maps to <undefined>"
  end.

Definition cp1252 : stdout_encoding :=
  LegacyStream cp1252_table
    (charmap_error (fun c => (c <? 0x80)%N || cp1252_table c) 0).

Definition env_cp1252 : Env := with_stdout cp1252 env_ok.

(** The user presses Ctrl-C while [sd.wait()] blocks. *)
Definition env_interrupted : Env :=
  with_raises (fun c => match c with
                        | sd_wait => Some KeyboardInterrupt
                        | _ => None
                        end) env_ok.

(** No input device. *)
Definition env_no_device : Env :=
  with_raises (fun c => match c with
                        | sd_rec _ _ _ => Some (Exc "PortAudioError" (lit "Error querying device -1"))
                        | _ => None
                        end) env_ok.

(** The recognizer fails. *)
Definition env_whisper_fails : Env :=
  with_raises (fun c => match c with
                        | whisper_transcribe _ _ _ => Some (Exc "RuntimeError" (lit "failed to load audio"))
                        | _ => None
                        end) env_ok.

(** The translation model fails. *)
Definition env_translator_fails : Env :=
  with_raises (fun c => match c with
                        | translator_generate _ => Some (Exc "RuntimeError" (lit "out of memory"))
                        | _ => None
                        end) env_ok.

(** Nothing but silence is recorded. *)
Definition env_silent : Env :=
  with_recorded [F32.zero; F32.zero; S754_zero true; F32.zero] env_ok.

(* ===================================================================== *)
(** * Further vocabulary: strings                                         *)
(* ===================================================================== *)

(** Every character of the string is whitespace. *)
Definition all_whitespace (s : str) : Prop :=
  Forall (fun c => isspace c = true) s.

(** [t] occurs in [s] as a substring. *)
Definition occurs (t s : str) : Prop :=
  exists pre post, s = pre ++ t ++ post.

(** The console lines of the handlers in [transcribe_urdu] and
    [translate_urdu]. *)
Definition transcription_failed (e : exn) : str :=
  [0x274C]%N ++ lit " Transcription failed: " ++ exn_str e.

Definition translation_failed (e : exn) : str :=
  [0x274C]%N ++ lit " Translation failed: " ++ exn_str e.

(* ===================================================================== *)
(** * Further vocabulary: runs                                            *)
(* ===================================================================== *)


(** Between two states exactly one stage was started, once: [s0]. *)
Definition starts_only (s0 : stage) (st st' : State) : Prop :=
  forall s,
    invocations s st'
    = (invocations s st
       + (if Nat.eqb (stage_index s) (stage_index s0) then 1 else 0))%nat.

(** Between two states no stage was started. *)
Definition starts_none (st st' : State) : Prop :=
  forall s, invocations s st' = invocations s st.

(** [x] is what [print] raises, in this run, for a line its stream cannot
    encode. *)
Definition print_failure (env : Env) (x : exn) : Prop :=
  exists text, can_print env text = false /\ x = encode_error (stdout env) text.

(** Between two states the first [k] stages were started, once each, and
    no other. *)
Definition started_prefix (k : nat) (st st' : State) : Prop :=
  forall s,
    invocations s st'
    = (invocations s st + (if Nat.ltb (stage_index s) k then 1 else 0))%nat.

(** The first three stages succeed and a speech call raises [x]. *)
Inductive speech_raises (env : Env) (st : State) : exn -> State -> Prop :=
| speech_raises_at st1 u st2 e st3 x st4 :
    run_record env st = (Return true, st1) ->
    run_transcribe env st1 = (Return (Some u), st2) ->
    truthy u = true ->
    run_translate env u st2 = (Return (Some e), st3) ->
    truthy e = true ->
    run_speak env e st3 = (Raise x, st4) ->
    speech_raises env st x st4.

(** What the recognizer heard, as [main] passes it on. *)
Definition heard (env : Env) : str := strip (transcript env urdu_audio_wav).


(** The speech engine fails while playing. *)
Definition env_tts_fails : Env :=
  with_raises (fun c => match c with
                        | tts_runAndWait => Some (Exc "RuntimeError" (lit "run loop already started"))
                        | _ => None
                        end) env_ok.

(** The recognizer hears a single two-letter word. *)
Definition env_short_word : Env := with_transcript ([SPACE] ++ U_HE) env_ok.

(* ===================================================================== *)
(** * Loading the models (lines 45-70)                                    *)
(* ===================================================================== *)

Module Loader.

(** The calls made while loading. *)
Inductive load_call : Type :=
| whisper_load_model (name : string)
| MarianTokenizer_from_pretrained (model_name : string)
| MarianMTModel_from_pretrained (model_name : string)
| pyttsx3_init
| tts_setProperty (name : string) (value : Z)
| stdout_write (text : str).

(** What the calls return: the loaded objects, named by what was asked. *)
Inductive handle : Type :=
| WhisperModel (name : string)
| MarianTokenizer (model_name : string)
| MarianMTModel (model_name : string)
| TtsEngine.

Inductive load_event : Type :=
| Loading (c : load_call)
| Line (text : str).

(** The [models] dict: keys in insertion order. *)
Definition dict := list (string * handle).

(** [d[k] = v] *)
Fixpoint dict_set (k : string) (v : handle) (d : dict) : dict :=
  match d with
  | [] => [(k, v)]
  | (k', v') :: d' =>
      if String.eqb k k' then (k, v) :: d' else (k', v') :: dict_set k v d'
  end.

(** [d[k]]; [None] stands for the KeyError. *)
Fixpoint dict_get (k : string) (d : dict) : option handle :=
  match d with
  | [] => None
  | (k', v) :: d' => if String.eqb k k' then Some v else dict_get k d'
  end.

(** Which call fails, and with what. *)
Definition LoadEnv := load_call -> option exn.

Definition L (A : Type) : Type :=
  LoadEnv -> list load_event -> outcome A * list load_event.

Definition ret {A} (a : A) : L A := fun _ tr => (Return a, tr).

Definition bind {A B} (m : L A) (k : A -> L B) : L B :=
  fun env tr =>
    match m env tr with
    | (Return a, tr') => k a env tr'
    | (Raise e, tr') => (Raise e, tr')
    end.

Definition raise {A} (e : exn) : L A := fun _ tr => (Raise e, tr).

(** Every console encoding holds ASCII. *)
Definition ascii_only (text : str) : bool :=
  forallb (fun c => (c <? 0x80)%N) text.

(** [print(text)]: an ASCII line is always written; for any other line the
    environment says whether the console can encode it.  A line that is
    refused is not written. *)
Definition print (text : str) : L unit :=
  fun env tr =>
    if ascii_only text then (Return tt, tr ++ [Line text])
    else match env (stdout_write text) with
         | Some e => (Raise e, tr)
         | None => (Return tt, tr ++ [Line text])
         end.

Definition call (c : load_call) : L unit :=
  fun env tr =>
    match env c with
    | Some e => (Raise e, tr ++ [Loading c])
    | None => (Return tt, tr ++ [Loading c])
    end.

(** [try: body  except: handler] -- the bare form: everything is caught. *)
Definition try_except {A} (body : L A) (handler : L A) : L A :=
  fun env tr =>
    match body env tr with
    | (Return a, tr') => (Return a, tr')
    | (Raise _, tr') => handler env tr'
    end.

(** [try: body  except Exception as e: handler e] *)
Definition try_except_Exception {A} (body : L A) (handler : exn -> L A) : L A :=
  fun env tr =>
    match body env tr with
    | (Return a, tr') => (Return a, tr')
    | (Raise e, tr') =>
        if isinstance_Exception e then handler e env tr' else (Raise e, tr')
    end.

Definition model_name : string := "Helsinki-NLP/opus-mt-ur-en".

Definition falling_back : str := lit "Falling back to whisper-small".

Definition loading_failed (e : exn) : str :=
  [0x274C]%N ++ lit " Model loading failed: " ++ exn_str e.

(** [load_models()], lines 45-67 *)
Definition load_models : L dict :=
  let models : dict := [] in
  try_except_Exception
    (bind
       (try_except
          (bind (call (whisper_load_model "medium")) (fun _ =>
           ret (dict_set "whisper" (WhisperModel "medium") models)))
          (bind (print falling_back) (fun _ =>
           bind (call (whisper_load_model "small")) (fun _ =>
           ret (dict_set "whisper" (WhisperModel "small") models)))))
       (fun models =>
        bind (call (MarianTokenizer_from_pretrained model_name)) (fun _ =>
        let models := dict_set "tokenizer" (MarianTokenizer model_name) models in
        bind (call (MarianMTModel_from_pretrained model_name)) (fun _ =>
        let models := dict_set "translator" (MarianMTModel model_name) models in
        bind (call pyttsx3_init) (fun _ =>
        let models := dict_set "tts" TtsEngine models in
        bind (call (tts_setProperty "rate" 150)) (fun _ =>
        ret models))))))
    (fun e => bind (print (loading_failed e)) (fun _ => raise e)).

(** The complete bundle, with the recognizer of the given size. *)
Definition bundle (size : string) : dict :=
  [ ("whisper", WhisperModel size);
    ("tokenizer", MarianTokenizer model_name);
    ("translator", MarianMTModel model_name);
    ("tts", TtsEngine) ]%string.

(** Loading environments for concrete runs. *)
Definition all_load : LoadEnv := fun _ => None.

(** The medium recognizer cannot be loaded; the user even interrupts it. *)
Definition medium_interrupted : LoadEnv :=
  fun c => match c with
           | whisper_load_model "medium" => Some KeyboardInterrupt
           | _ => None
           end.

(** The translation model cannot be downloaded. *)
Definition translator_missing : LoadEnv :=
  fun c => match c with
           | MarianMTModel_from_pretrained _ => Some (Exc "OSError" (lit "model not found"))
           | _ => None
           end.

(** The same, on a console on code page 1252. *)
Definition translator_missing_cp1252 : LoadEnv :=
  fun c => match c with
           | MarianMTModel_from_pretrained _ => Some (Exc "OSError" (lit "model not found"))
           | stdout_write text =>
               if forallb (printable cp1252) text then None
               else Some (encode_error cp1252 text)
           | _ => None
           end.

End Loader.

(* ===================================================================== *)
(** * Facts about [replace]                                               *)
(* ===================================================================== *)

Section ReplaceFacts.

Lemma startswith_app (p rest : str) : startswith p (p ++ rest) = true.
Proof.
  induction p as [|x p IH]; simpl; [reflexivity|].
  now rewrite N.eqb_refl, IH.
Qed.

Lemma startswith_split (p s : str) :
  startswith p s = true -> s = p ++ skipn (List.length p) s.
Proof.
  revert s; induction p as [|x p IH]; intros s H; simpl in *; [reflexivity|].
  destruct s as [|y s]; [discriminate|].
  apply andb_prop in H as [Hxy Hrest].
  apply N.eqb_eq in Hxy; subst y.
  simpl. f_equal. now apply IH.
Qed.

Lemma replace_scan_skip (old new : str) (n : nat) (s : str) :
  replace_scan old new n s = replace_scan old new 0 (skipn n s).
Proof.
  revert n; induction s as [|c s IH]; intros [|k]; try reflexivity.
  simpl skipn. rewrite <- IH. reflexivity.
Qed.

(** One step of the scan at a match, and at a non-match. *)
Lemma replace_scan_hit (old new rest : str) :
  old <> [] ->
  replace_scan old new 0 (old ++ rest) = new ++ replace_scan old new 0 rest.
Proof.
  intros Hne. destruct old as [|x old]; [congruence|].
  change ((x :: old) ++ rest) with (x :: (old ++ rest)).
  cbn [replace_scan].
  change (x :: old ++ rest) with ((x :: old) ++ rest).
  rewrite startswith_app. f_equal.
  rewrite replace_scan_skip. f_equal.
  replace (List.length (x :: old) - 1)%nat with (List.length old)
    by (simpl; lia).
  rewrite skipn_app, skipn_all, Nat.sub_diag. reflexivity.
Qed.

Lemma replace_scan_miss (old new : str) (c : N) (s : str) :
  startswith old (c :: s) = false ->
  replace_scan old new 0 (c :: s) = c :: replace_scan old new 0 s.
Proof. intros H. cbn [replace_scan]. now rewrite H. Qed.

Lemma replace_scan_same (old : str) :
  old <> [] -> forall n s, (List.length s <= n)%nat -> replace_scan old old 0 s = s.
Proof.
  intros Hne n; induction n as [|n IH]; intros s Hlen.
  - destruct s; [reflexivity | simpl in Hlen; lia].
  - destruct s as [|c s]; [reflexivity|].
    destruct (startswith old (c :: s)) eqn:E.
    + apply startswith_split in E. rewrite E at 1.
      rewrite replace_scan_hit by assumption.
      rewrite IH; [symmetry; exact E|].
      rewrite length_skipn. simpl in *.
      destruct old; [congruence | simpl; lia].
    + rewrite replace_scan_miss by assumption.
      f_equal. apply IH. simpl in Hlen; lia.
Qed.

(** Replacing a substring by itself changes nothing, whatever the string. *)
Lemma replace_same (s k : str) : replace s k k = s.
Proof.
  destruct k as [|x k].
  - simpl. induction s as [|c s IH]; simpl; congruence.
  - unfold replace. apply replace_scan_same with (n := List.length s);
      [discriminate | constructor].
Qed.

End ReplaceFacts.

Lemma apply_corrections_id (t : str) : apply_corrections t = t.
Proof.
  unfold apply_corrections, corrections. cbn [fold_left fst snd].
  now rewrite !replace_same.
Qed.

(** C2.  Every key of the correction map equals its replacement value, and
    applying the corrections to any string leaves the string unchanged. *)
Theorem corrections_identity_map :
  Forall (fun kv => fst kv = snd kv) corrections /\
  forall t : str, apply_corrections t = t.
Proof.
  split.
  - repeat constructor.
  - intros t. unfold apply_corrections, corrections. cbn [fold_left fst snd].
    now rewrite !replace_same.
Qed.

(** C3.  Applying the correction map twice is the same as applying it once. *)
Theorem apply_corrections_idempotent (t : str) :
  apply_corrections (apply_corrections t) = apply_corrections t.
Proof. now rewrite !apply_corrections_id. Qed.

(* ===================================================================== *)
(** * Facts about [strip]                                                 *)
(* ===================================================================== *)

Section StripFacts.

Lemma lstrip_head (s : str) :
  match lstrip s with [] => True | c :: _ => isspace c = false end.
Proof.
  induction s as [|c s IH]; simpl; [exact I|].
  destruct (isspace c) eqn:E; [exact IH | exact E].
Qed.

Lemma lstrip_suffix (s : str) : exists ws, s = ws ++ lstrip s.
Proof.
  induction s as [|c s [ws IH]]; simpl.
  - now exists [].
  - destruct (isspace c).
    + exists (c :: ws). simpl. now f_equal.
    + now exists [].
Qed.

Lemma rstrip_prefix (s : str) : exists ws, s = rstrip s ++ ws.
Proof.
  destruct (lstrip_suffix (rev s)) as [ws H].
  exists (rev ws). unfold rstrip.
  rewrite <- rev_app_distr, <- H. now rewrite rev_involutive.
Qed.

Lemma rstrip_last (s : str) (d : N) :
  rstrip s <> [] -> isspace (last (rstrip s) d) = false.
Proof.
  unfold rstrip. intros Hne.
  pose proof (lstrip_head (rev s)) as Hh.
  destruct (lstrip (rev s)) as [|c l]; [now elim Hne|].
  simpl rev. now rewrite last_last.
Qed.

Lemma strip_stripped (s : str) : stripped (strip s).
Proof.
  unfold strip, stripped.
  destruct (rstrip (lstrip s)) as [|c r] eqn:E; [exact I|].
  split.
  - destruct (rstrip_prefix (lstrip s)) as [ws H]. rewrite E in H.
    pose proof (lstrip_head s) as Hh. rewrite H in Hh. exact Hh.
  - rewrite <- E. apply rstrip_last. rewrite E. discriminate.
Qed.

End StripFacts.

(* ===================================================================== *)
(** * The stages, one at a time                                           *)
(* ===================================================================== *)

(** C1.  On [None], the empty string and every string shorter than three
    characters, [translate_urdu] returns [None]; the run gains nothing but
    the entry into the function itself, so neither the tokenizer nor the
    translation model is called. *)
Theorem translate_urdu_rejects_short (env : Env) (st : State) (v : option str) :
  too_short v ->
  translate_urdu v env st = (Return None, log (Enter f_translate_urdu) st) /\
  forall c, In (Call c) (trace (snd (translate_urdu v env st))) ->
            In (Call c) (trace st).
Proof.
  intros Hshort.
  assert (E : translate_urdu v env st
              = (Return None, log (Enter f_translate_urdu) st)).
  { unfold translate_urdu, bind, try_except_Exception, enter.
    destruct v as [s|]; [|reflexivity].
    simpl in Hshort. apply Z.ltb_lt in Hshort. rewrite Hshort.
    now rewrite orb_true_r. }
  split; [exact E|].
  intros c. rewrite E. simpl. rewrite in_app_iff.
  intros [H|[H|[]]]; [exact H | discriminate].
Qed.

Lemma translate_urdu_rejects_short_witness :
  too_short (Some (lit "ab")) /\
  translate_urdu (Some (lit "ab")) env_ok empty_state
  = (Return None, log (Enter f_translate_urdu) empty_state).
Proof.
  split; [reflexivity|].
  apply translate_urdu_rejects_short. reflexivity.
Defined.

(** C4.  Whatever the recognizer does, what [transcribe_urdu] returns is
    [None] or a string with no whitespace at either end.  A run that
    returns nothing ends in an exception: an interrupt that is no
    [Exception], raised by the recognizer call and passed on, or the
    exception of the handler's own [print] on a stream that cannot encode
    the failure line. *)
Theorem transcribe_urdu_stripped (audio_path : str) (env : Env) (st : State) :
  match fst (transcribe_urdu audio_path env st) with
  | Return None => True
  | Return (Some text) => stripped text
  | Raise x =>
      (raises env (whisper_transcribe audio_path (lit "ur") initial_prompt) = Some x
       /\ isinstance_Exception x = false) \/
      (exists e,
          raises env (whisper_transcribe audio_path (lit "ur") initial_prompt) = Some e
          /\ isinstance_Exception e = true
          /\ can_print env (transcription_failed e) = false
          /\ x = encode_error (stdout env) (transcription_failed e))
  end.
Proof.
  unfold transcribe_urdu, bind, try_except_Exception, enter, extcall, asks,
    ret, print.
  destruct (raises env _) as [e|] eqn:E; cbv beta iota zeta.
  - destruct (isinstance_Exception e) eqn:Ee; cbv beta iota.
    + fold (transcription_failed e).
      destruct (can_print env (transcription_failed e)) eqn:Ep; cbn [fst].
      * exact I.
      * right. exists e. auto.
    + cbn [fst]. left. auto.
  - cbn [fst]. rewrite apply_corrections_id. apply strip_stripped.
Qed.

(* ===================================================================== *)
(** * Framing: what a computation leaves untouched                        *)
(* ===================================================================== *)

Section Frame.

Variable R : State -> State -> Prop.
Hypothesis R_refl : forall st, R st st.
Hypothesis R_trans : forall a b c, R a b -> R b c -> R a c.

Lemma framed_ret {A} (a : A) : framed R (ret a).
Proof. intros env st. apply R_refl. Qed.

Lemma framed_raise {A} (e : exn) : framed R (@raise A e).
Proof. intros env st. apply R_refl. Qed.

Lemma framed_asks {A} (f : Env -> A) : framed R (asks f).
Proof. intros env st. apply R_refl. Qed.

Lemma framed_bind {A B} (m : M A) (k : A -> M B) :
  framed R m -> (forall a, framed R (k a)) -> framed R (bind m k).
Proof.
  intros Hm Hk env st. unfold bind.
  specialize (Hm env st).
  destruct (m env st) as [[a|e] st']; simpl in *; [|exact Hm].
  eapply R_trans; [exact Hm | apply Hk].
Qed.

Lemma framed_try {A} (body : M A) (handler : exn -> M A) :
  framed R body -> (forall e, framed R (handler e)) ->
  framed R (try_except_Exception body handler).
Proof.
  intros Hb Hh env st. unfold try_except_Exception.
  specialize (Hb env st).
  destruct (body env st) as [[a|e] st']; simpl in *; [exact Hb|].
  destruct (isinstance_Exception e); simpl; [|exact Hb].
  eapply R_trans; [exact Hb | apply Hh].
Qed.

(** Logging one event, when [R] allows that event. *)
Variable allowed : event -> Prop.
Hypothesis R_log : forall ev st, allowed ev -> R st (log ev st).

Lemma framed_enter (f : func) : allowed (Enter f) -> framed R (enter f).
Proof. intros H env st. now apply R_log. Qed.

Lemma framed_print (text : str) : allowed (Console text) -> framed R (print text).
Proof.
  intros H env st. unfold print.
  destruct (can_print env text); [now apply R_log | apply R_refl].
Qed.

Lemma framed_extcall (c : call) : allowed (Call c) -> framed R (extcall c).
Proof.
  intros H env st. unfold extcall.
  destruct (raises env c); now apply R_log.
Qed.

End Frame.

(** ** Call counts *)

Lemma invocations_log (s : stage) (ev : event) (st : State) :
  invocations s (log ev st)
  = (invocations s st + (if starts s ev then 1 else 0))%nat.
Proof.
  unfold invocations, log. simpl.
  rewrite filter_app, length_app. simpl.
  now destruct (starts s ev).
Qed.

Lemma same_invocations_refl s st : same_invocations s st st.
Proof. reflexivity. Qed.

Lemma same_invocations_trans s a b c :
  same_invocations s a b -> same_invocations s b c -> same_invocations s a c.
Proof. unfold same_invocations. congruence. Qed.

Lemma same_invocations_log s ev st :
  starts s ev = false -> same_invocations s st (log ev st).
Proof.
  intros H. unfold same_invocations.
  rewrite invocations_log, H. lia.
Qed.

Lemma same_files_refl st : same_files st st.
Proof. reflexivity. Qed.

Lemma same_files_trans a b c :
  same_files a b -> same_files b c -> same_files a c.
Proof. unfold same_files. congruence. Qed.

Lemma same_files_log ev st : True -> same_files st (log ev st).
Proof. reflexivity. Qed.

Lemma framed_create_file s path : framed (same_invocations s) (create_file path).
Proof. intros env st. reflexivity. Qed.

(** Walks through a computation built from the primitives above. *)
Ltac frame_count :=
  repeat first
    [ apply framed_ret; [apply same_invocations_refl]
    | apply framed_raise; [apply same_invocations_refl]
    | apply framed_asks; [apply same_invocations_refl]
    | apply framed_create_file
    | match goal with
      | |- framed (same_invocations ?s) (enter ?f) =>
          apply (@framed_enter (same_invocations s)
                   (fun ev => starts s ev = false) (same_invocations_log s) f)
      | |- framed (same_invocations ?s) (print ?t) =>
          apply (@framed_print (same_invocations s) (same_invocations_refl s)
                   (fun ev => starts s ev = false) (same_invocations_log s) t)
      | |- framed (same_invocations ?s) (extcall ?c) =>
          apply (@framed_extcall (same_invocations s)
                   (fun ev => starts s ev = false) (same_invocations_log s) c)
      end; reflexivity
    | apply framed_bind; [apply same_invocations_trans | | intros ?]
    | apply framed_try; [apply same_invocations_trans | | intros ?]
    | match goal with
      | |- framed _ (match ?x with _ => _ end) => destruct x
      end ].

Ltac frame_files :=
  repeat first
    [ apply framed_ret; [apply same_files_refl]
    | apply framed_raise; [apply same_files_refl]
    | apply framed_asks; [apply same_files_refl]
    | apply (@framed_enter same_files (fun _ => True) same_files_log); exact I
    | apply (@framed_print same_files same_files_refl
               (fun _ => True) same_files_log); exact I
    | apply (@framed_extcall same_files (fun _ => True) same_files_log); exact I
    | apply framed_bind; [apply same_files_trans | | intros ?]
    | apply framed_try; [apply same_files_trans | | intros ?]
    | match goal with
      | |- framed _ (match ?x with _ => _ end) => destruct x
      end ].

Lemma record_urdu_audio_count (s : stage) filename duration :
  s <> Recording ->
  framed (same_invocations s) (record_urdu_audio filename duration).
Proof.
  intros Hs. unfold record_urdu_audio.
  destruct s; try congruence; frame_count.
Qed.

Lemma transcribe_urdu_count (s : stage) audio_path :
  s <> Transcribing ->
  framed (same_invocations s) (transcribe_urdu audio_path).
Proof.
  intros Hs. unfold transcribe_urdu.
  destruct s; try congruence; frame_count.
Qed.

Lemma translate_urdu_count (s : stage) v :
  s <> Translating ->
  framed (same_invocations s) (translate_urdu v).
Proof.
  intros Hs. unfold translate_urdu.
  destruct s; try congruence; frame_count.
Qed.

Lemma speak_count (s : stage) e :
  s <> Speaking ->
  framed (same_invocations s) (speak e).
Proof.
  intros Hs. unfold speak.
  destruct s; try congruence; frame_count.
Qed.

Lemma transcribe_urdu_files audio_path : framed same_files (transcribe_urdu audio_path).
Proof. unfold transcribe_urdu. frame_files. Qed.

Lemma translate_urdu_files v : framed same_files (translate_urdu v).
Proof. unfold translate_urdu. frame_files. Qed.

Lemma speak_files e : framed same_files (speak e).
Proof. unfold speak. frame_files. Qed.

(* ===================================================================== *)
(** * The orchestrator                                                    *)
(* ===================================================================== *)

(** [main], one stage after the other. *)
Lemma main_unfold (env : Env) (st : State) :
  main env st =
  match run_record env st with
  | (Raise x, st1) => (Raise x, st1)
  | (Return false, st1) => (Return tt, st1)
  | (Return true, st1) =>
      match run_transcribe env st1 with
      | (Raise x, st2) => (Raise x, st2)
      | (Return None, st2) => (Return tt, st2)
      | (Return (Some u), st2) =>
          if truthy u then
            match run_translate env u st2 with
            | (Raise x, st3) => (Raise x, st3)
            | (Return None, st3) => (Return tt, st3)
            | (Return (Some e), st3) =>
                if truthy e then
                  match run_speak env e st3 with
                  | (Raise x, st4) => (Raise x, st4)
                  | (Return _, st4) => remove_file urdu_audio_wav env st4
                  end
                else (Return tt, st3)
            end
          else (Return tt, st2)
      end
  end.
Proof.
  unfold run_record, run_transcribe, run_translate, run_speak.
  cbv [main bind enter ret].
  destruct (record_urdu_audio _ _ _ _) as [[[|]|x] st1]; try reflexivity.
  cbn [negb].
  destruct (print _ env st1) as [[[]|x] s1]; try reflexivity.
  destruct (transcribe_urdu _ env s1) as [[[u|]|x] st2]; try reflexivity.
  destruct (truthy u); cbn [negb]; try reflexivity.
  destruct (print _ env st2) as [[[]|x] s2]; try reflexivity.
  destruct (print _ env s2) as [[[]|x] s3]; try reflexivity.
  destruct (translate_urdu _ env s3) as [[[e|]|x] st3]; try reflexivity.
  destruct (truthy e); cbn [negb]; try reflexivity.
  destruct (print _ env st3) as [[[]|x] s4]; try reflexivity.
Qed.

(** The stages as [main] runs them start no stage but their own and,
    recording apart, touch no file. *)
Lemma run_transcribe_framed (s : stage) :
  s <> Transcribing ->
  framed (same_invocations s)
    (print ([0xA; 0x1F50D]%N ++ lit " Transcribing...") ;;
     transcribe_urdu urdu_audio_wav).
Proof.
  intros Hs. unfold transcribe_urdu. destruct s; try congruence; frame_count.
Qed.

Lemma run_translate_framed (s : stage) (u : str) :
  s <> Translating ->
  framed (same_invocations s)
    (print ([0x1F4DD]%N ++ lit " Urdu: " ++ u) ;;
     print ([0xA; 0x1F30D]%N ++ lit " Translating...") ;;
     translate_urdu (Some u)).
Proof.
  intros Hs. unfold translate_urdu. destruct s; try congruence; frame_count.
Qed.

Lemma run_speak_framed (s : stage) (e : str) :
  s <> Speaking ->
  framed (same_invocations s)
    (print ([0x2705]%N ++ lit " English: " ++ e) ;; speak e).
Proof.
  intros Hs. unfold speak. destruct s; try congruence; frame_count.
Qed.

Lemma run_transcribe_keeps_files :
  framed same_files
    (print ([0xA; 0x1F50D]%N ++ lit " Transcribing...") ;;
     transcribe_urdu urdu_audio_wav).
Proof. unfold transcribe_urdu. frame_files. Qed.

Lemma run_translate_keeps_files (u : str) :
  framed same_files
    (print ([0x1F4DD]%N ++ lit " Urdu: " ++ u) ;;
     print ([0xA; 0x1F30D]%N ++ lit " Translating...") ;;
     translate_urdu (Some u)).
Proof. unfold translate_urdu. frame_files. Qed.

Lemma run_speak_keeps_files (e : str) :
  framed same_files
    (print ([0x2705]%N ++ lit " English: " ++ e) ;; speak e).
Proof. unfold speak. frame_files. Qed.

Section StageFrames.

Variables (env : Env) (s : stage).

Lemma run_record_count st r st1 :
  run_record env st = (r, st1) -> s <> Recording ->
  invocations s st1 = invocations s st.
Proof.
  intros E Hs. unfold run_record in E.
  pose proof (record_urdu_audio_count urdu_audio_wav 7 Hs env
                (log (Enter f_main) st)) as H.
  rewrite E in H. unfold same_invocations in H. simpl in H.
  rewrite H, invocations_log. destruct s; simpl; lia.
Qed.

Lemma run_transcribe_count st1 r st2 :
  run_transcribe env st1 = (r, st2) -> s <> Transcribing ->
  invocations s st2 = invocations s st1.
Proof.
  intros E Hs. unfold run_transcribe in E.
  pose proof (run_transcribe_framed Hs env st1) as H.
  rewrite E in H. exact H.
Qed.

Lemma run_translate_count u st2 r st3 :
  run_translate env u st2 = (r, st3) -> s <> Translating ->
  invocations s st3 = invocations s st2.
Proof.
  intros E Hs. unfold run_translate in E.
  pose proof (run_translate_framed u Hs env st2) as H.
  rewrite E in H. exact H.
Qed.

Lemma run_speak_count e st3 r st4 :
  run_speak env e st3 = (r, st4) -> s <> Speaking ->
  invocations s st4 = invocations s st3.
Proof.
  intros E Hs. unfold run_speak in E.
  pose proof (run_speak_framed e Hs env st3) as H.
  rewrite E in H. exact H.
Qed.

Lemma run_transcribe_files st1 r st2 :
  run_transcribe env st1 = (r, st2) -> files st2 = files st1.
Proof.
  intros E. unfold run_transcribe in E.
  pose proof (run_transcribe_keeps_files env st1) as H.
  rewrite E in H. exact H.
Qed.

Lemma run_translate_files u st2 r st3 :
  run_translate env u st2 = (r, st3) -> files st3 = files st2.
Proof.
  intros E. unfold run_translate in E.
  pose proof (run_translate_keeps_files u env st2) as H.
  rewrite E in H. exact H.
Qed.

Lemma run_speak_files e st3 r st4 :
  run_speak env e st3 = (r, st4) -> files st4 = files st3.
Proof.
  intros E. unfold run_speak in E.
  pose proof (run_speak_keeps_files e env st3) as H.
  rewrite E in H. exact H.
Qed.

End StageFrames.

Arguments run_record_count [env s st r st1] _ _.
Arguments run_transcribe_count [env s st1 r st2] _ _.
Arguments run_translate_count [env s u st2 r st3] _ _.
Arguments run_speak_count [env s e st3 r st4] _ _.
Arguments run_transcribe_files [env st1 r st2] _.
Arguments run_translate_files [env u st2 r st3] _.
Arguments run_speak_files [env e st3 r st4] _.

(** Discharges [s' <> s] for a stage [s'] later than the one at hand. *)
Ltac later_stage :=
  match goal with
  | H : later _ ?s' |- _ =>
      unfold later in H; destruct s'; simpl in H; try lia; try discriminate
  end.

(** C5.  When a stage returns its failure sentinel, [main] returns at once,
    in the state that stage left: no later stage has been started. *)
Theorem main_aborts_on_sentinel (env : Env) (st : State) (s : stage) (st' : State) :
  returns_sentinel env st s st' ->
  main env st = (Return tt, st') /\
  forall s', later s s' -> invocations s' st' = invocations s' st.
Proof.
  intros H. rewrite main_unfold.
  destruct H as [st1 E1 | st1 st2 E1 E2 | st1 u st2 st3 E1 E2 Hu E3].
  - rewrite E1. split; [reflexivity|].
    intros s' Hl.
    apply (run_record_count E1). later_stage.
  - rewrite E1, E2. split; [reflexivity|].
    intros s' Hl.
    rewrite (run_transcribe_count (s:=s') E2) by later_stage.
    apply (run_record_count E1). later_stage.
  - rewrite E1, E2, Hu, E3. split; [reflexivity|].
    intros s' Hl.
    rewrite (run_translate_count (s:=s') E3) by later_stage.
    rewrite (run_transcribe_count (s:=s') E2) by later_stage.
    apply (run_record_count E1). later_stage.
Qed.

Lemma main_aborts_on_sentinel_witness :
  exists st',
    returns_sentinel env_translator_fails empty_state Translating st' /\
    main env_translator_fails empty_state = (Return tt, st') /\
    invocations Speaking st' = 0%nat /\ invocations Cleanup st' = 0%nat.
Proof.
  eexists.
  assert (H : returns_sentinel env_translator_fails empty_state Translating
                (snd (main env_translator_fails empty_state))).
  { eapply sentinel_translating; vm_compute; reflexivity. }
  split; [exact H|].
  destruct (main_aborts_on_sentinel H) as [Hm Hc].
  split; [exact Hm|].
  split; [apply (Hc Speaking) | apply (Hc Cleanup)];
    unfold later; simpl; repeat constructor.
Defined.

(** The other two sentinels, on concrete runs. *)
Example no_device_run :
  returns_sentinel env_no_device empty_state Recording
    (snd (main env_no_device empty_state)).
Proof. apply sentinel_recording. vm_compute. reflexivity. Qed.

Example recognizer_failure_run :
  returns_sentinel env_whisper_fails empty_state Transcribing
    (snd (main env_whisper_fails empty_state)).
Proof. eapply sentinel_transcribing; vm_compute; reflexivity. Qed.

(** C10.  The empty string from transcription or from translation stops
    [main] exactly like [None]: it returns at once, and translation (when
    the transcript is empty), speech and the removal of the file are not
    started. *)
Theorem main_aborts_on_empty_string (env : Env) (st : State) (s : stage) (st' : State) :
  returns_empty env st s st' ->
  main env st = (Return tt, st') /\
  forall s', later s s' -> invocations s' st' = invocations s' st.
Proof.
  intros H. rewrite main_unfold.
  destruct H as [st1 st2 E1 E2 | st1 u st2 st3 E1 E2 Hu E3].
  - rewrite E1, E2. cbn [truthy]. split; [reflexivity|].
    intros s' Hl.
    rewrite (run_transcribe_count (s:=s') E2) by later_stage.
    apply (run_record_count E1). later_stage.
  - rewrite E1, E2, Hu, E3. cbn [truthy]. split; [reflexivity|].
    intros s' Hl.
    rewrite (run_translate_count (s:=s') E3) by later_stage.
    rewrite (run_transcribe_count (s:=s') E2) by later_stage.
    apply (run_record_count E1). later_stage.
Qed.

Lemma main_aborts_on_empty_string_witness :
  exists st',
    returns_empty (with_transcript [SPACE; SPACE] env_ok) empty_state Transcribing st' /\
    main (with_transcript [SPACE; SPACE] env_ok) empty_state = (Return tt, st') /\
    invocations Translating st' = 0%nat /\
    invocations Speaking st' = 0%nat /\
    invocations Cleanup st' = 0%nat.
Proof.
  eexists.
  assert (H : returns_empty (with_transcript [SPACE; SPACE] env_ok) empty_state
                Transcribing
                (snd (main (with_transcript [SPACE; SPACE] env_ok) empty_state))).
  { eapply empty_transcript; vm_compute; reflexivity. }
  split; [exact H|].
  destruct (main_aborts_on_empty_string H) as [Hm Hc].
  split; [exact Hm|].
  split; [|split];
    [apply (Hc Translating) | apply (Hc Speaking) | apply (Hc Cleanup)];
    unfold later; simpl; repeat constructor.
Defined.

Example empty_translation_run :
  returns_empty (with_decoded [] env_ok) empty_state Translating
    (snd (main (with_decoded [] env_ok) empty_state)).
Proof. eapply empty_translation; vm_compute; reflexivity. Qed.

(* ===================================================================== *)
(** * The temporary file                                                  *)
(* ===================================================================== *)

Lemma eqb_refl (a : str) : PyStr.eqb a a = true.
Proof. induction a as [|x a IH]; simpl; [reflexivity|]. now rewrite N.eqb_refl. Qed.

Lemma file_exists_touch (path : str) (st : State) :
  file_exists path (touch path st) = true.
Proof.
  unfold touch, file_exists at 1. cbn [files].
  destruct (file_exists path st) eqn:E; [exact E|].
  simpl. now rewrite eqb_refl.
Qed.

Lemma file_exists_unlink (path : str) (st : State) :
  file_exists path (unlink path st) = false.
Proof.
  unfold file_exists, unlink. simpl.
  induction (files st) as [|p l IH]; simpl; [reflexivity|].
  destruct (PyStr.eqb path p) eqn:E; simpl; [exact IH|].
  now rewrite E.
Qed.

Lemma invocations_unlink (s : stage) (path : str) (st : State) :
  invocations s (unlink path st) = invocations s st.
Proof. reflexivity. Qed.

(** Splits a run of a stage into its paths: at every external call, at
    every console line, at the peak of the buffer, at the first generated
    sequence, at the handler. *)
Ltac monad_paths env :=
  unfold bind, try_except_Exception, enter, print,
    extcall, asks, create_file, ret, raise;
  repeat (first
    [ match goal with
      | |- context [match raises env ?c with _ => _ end] =>
          destruct (raises env c) as [?exc|] eqn:?
      end
    | match goal with
      | |- context [match F32.np_max ?a with _ => _ end] =>
          destruct (F32.np_max a) as [?peak|] eqn:?
      end
    | match goal with
      | |- context [match generated env ?i with _ => _ end] =>
          destruct (generated env i) as [|?out ?outs] eqn:?
      end
    | match goal with
      | |- context [if can_print env ?t then _ else _] =>
          destruct (can_print env t) eqn:?
      end
    | match goal with
      | |- context [if isinstance_Exception ?e then _ else _] =>
          first [ change (isinstance_Exception e) with true
                | destruct (isinstance_Exception e) eqn:? ]
      end ];
    cbv beta iota zeta).

Ltac record_paths env := unfold record_urdu_audio; monad_paths env.

(** When recording reports success the file is on disk. *)
Lemma record_urdu_audio_writes_file filename duration env st st1 :
  record_urdu_audio filename duration env st = (Return true, st1) ->
  file_exists filename st1 = true.
Proof.
  record_paths env; intros H; inversion H; subst; clear H.
  unfold file_exists. cbn [log files].
  exact (file_exists_touch _ _).
Qed.

Lemma remove_file_run (path : str) (env : Env) (st : State) :
  invocations Cleanup (snd (remove_file path env st)) = S (invocations Cleanup st) /\
  (raises env (os_remove path) = None -> file_exists path st = true ->
   remove_file path env st = (Return tt, unlink path (log (Call (os_remove path)) st))) /\
  (file_exists path (snd (remove_file path env st)) = true ->
   raises env (os_remove path) <> None /\ file_exists path st = true).
Proof.
  unfold remove_file, bind, extcall.
  destruct (raises env (os_remove path)) as [x|] eqn:E; cbv beta iota.
  - split; [|split].
    + simpl snd. rewrite invocations_log. simpl. lia.
    + discriminate.
    + intros H. split; [discriminate | exact H].
  - change (file_exists path (log (Call (os_remove path)) st))
      with (file_exists path st).
    destruct (file_exists path st) eqn:Ex.
    + split; [|split].
      * simpl snd. rewrite invocations_unlink, invocations_log. simpl. lia.
      * reflexivity.
      * simpl snd. rewrite file_exists_unlink. discriminate.
    + split; [|split].
      * simpl snd. rewrite invocations_log. simpl. lia.
      * discriminate.
      * simpl snd.
        change (file_exists path (log (Call (os_remove path)) st))
          with (file_exists path st).
        rewrite Ex. discriminate.
Qed.

(** Either every stage succeeds and [main] ends in the removal of the
    file, or [main] stops short of it and leaves the files as recording
    left them. *)
Lemma main_cases (env : Env) (st : State) :
  (exists st4,
      all_stages_succeed env st st4 /\
      main env st = remove_file urdu_audio_wav env st4 /\
      invocations Cleanup st4 = invocations Cleanup st /\
      file_exists urdu_audio_wav st4 = true)
  \/
  (~ (exists st4, all_stages_succeed env st st4) /\
   invocations Cleanup (snd (main env st)) = invocations Cleanup st /\
   files (snd (main env st)) = files (snd (run_record env st))).
Proof.
  assert (Hc : Cleanup <> Recording /\ Cleanup <> Transcribing /\
               Cleanup <> Translating /\ Cleanup <> Speaking)
    by (repeat split; discriminate).
  destruct Hc as (Hc1 & Hc2 & Hc3 & Hc4).
  rewrite main_unfold.
  destruct (run_record env st) as [[[|]|x1] st1] eqn:E1; cbn [snd];
    try (right; split; [intros [st4 []]; congruence|];
         split; [exact (run_record_count E1 Hc1) | reflexivity]).
  destruct (run_transcribe env st1) as [[[u|]|x2] st2] eqn:E2; cbn [snd];
    try (right; split; [intros [st4 []]; congruence|];
         split; [rewrite (run_transcribe_count E2 Hc2);
                 exact (run_record_count E1 Hc1)
                | exact (run_transcribe_files E2)]).
  destruct (truthy u) eqn:Hu; cbn [snd];
    try (right; split; [intros [st4 []]; congruence|];
         split; [rewrite (run_transcribe_count E2 Hc2);
                 exact (run_record_count E1 Hc1)
                | exact (run_transcribe_files E2)]).
  destruct (run_translate env u st2) as [[[e|]|x3] st3] eqn:E3; cbn [snd];
    try (right; split; [intros [st4 []]; congruence|];
         split; [rewrite (run_translate_count E3 Hc3),
                   (run_transcribe_count E2 Hc2);
                 exact (run_record_count E1 Hc1)
                | rewrite (run_translate_files E3);
                  exact (run_transcribe_files E2)]).
  destruct (truthy e) eqn:He; cbn [snd];
    try (right; split; [intros [st4 []]; congruence|];
         split; [rewrite (run_translate_count E3 Hc3),
                   (run_transcribe_count E2 Hc2);
                 exact (run_record_count E1 Hc1)
                | rewrite (run_translate_files E3);
                  exact (run_transcribe_files E2)]).
  destruct (run_speak env e st3) as [[[]|x4] st4] eqn:E4; cbn [snd].
  - left. exists st4.
    split; [eapply stages_ok; eassumption|].
    split; [reflexivity|].
    split.
    + rewrite (run_speak_count E4 Hc4), (run_translate_count E3 Hc3),
        (run_transcribe_count E2 Hc2).
      exact (run_record_count E1 Hc1).
    + unfold file_exists.
      rewrite (run_speak_files E4), (run_translate_files E3),
        (run_transcribe_files E2).
      eapply record_urdu_audio_writes_file. exact E1.
  - right. split; [intros [st4' []]; congruence|].
    split.
    + rewrite (run_speak_count E4 Hc4), (run_translate_count E3 Hc3),
        (run_transcribe_count E2 Hc2).
      exact (run_record_count E1 Hc1).
    + rewrite (run_speak_files E4), (run_translate_files E3).
      exact (run_transcribe_files E2).
Qed.

(** C6.  The statement that removes the temporary file is executed if and
    only if recording, transcription, translation and speech all succeed.
    When they do and [os.remove] itself goes through, the file is gone at
    the end.  On every other run the removal is not reached and the files
    are exactly those recording left behind; in particular, the file that a
    successful recording wrote is still on disk. *)
Theorem cleanup_iff_all_stages_succeed (env : Env) (st : State) :
  ((exists st4, all_stages_succeed env st st4) <->
   invocations Cleanup (snd (main env st)) = S (invocations Cleanup st)) /\
  ((exists st4, all_stages_succeed env st st4) ->
   raises env (os_remove urdu_audio_wav) = None ->
   fst (main env st) = Return tt /\
   file_exists urdu_audio_wav (snd (main env st)) = false) /\
  (~ (exists st4, all_stages_succeed env st st4) ->
   invocations Cleanup (snd (main env st)) = invocations Cleanup st /\
   files (snd (main env st)) = files (snd (run_record env st)) /\
   (fst (run_record env st) = Return true ->
    file_exists urdu_audio_wav (snd (main env st)) = true)).
Proof.
  destruct (main_cases env st)
    as [(st4 & Hok & Hm & Hcnt & Hex) | (Hno & Hcnt & Hfiles)].
  - destruct (remove_file_run urdu_audio_wav env st4) as (Hr1 & Hr2 & _).
    split; [|split].
    + split; [intros _ | intros _; now exists st4].
      rewrite Hm, Hr1, Hcnt. reflexivity.
    + intros _ Hrm. rewrite Hm, (Hr2 Hrm Hex). cbn [fst snd].
      split; [reflexivity | apply file_exists_unlink].
    + intros Hn. exfalso. apply Hn. now exists st4.
  - split; [|split].
    + split; [intros H; now elim Hno | intros H; rewrite Hcnt in H; lia].
    + intros H; now elim Hno.
    + intros _. split; [exact Hcnt|]. split; [exact Hfiles|].
      intros Hrec. unfold file_exists. rewrite Hfiles.
      destruct (run_record env st) as [r st1] eqn:E1.
      cbn [fst snd] in *. subst r.
      eapply record_urdu_audio_writes_file. exact E1.
Qed.

Lemma cleanup_iff_all_stages_succeed_witness :
  (exists st4, all_stages_succeed env_ok empty_state st4) /\
  raises env_ok (os_remove urdu_audio_wav) = None /\
  file_exists urdu_audio_wav (snd (main env_ok empty_state)) = false /\
  ~ (exists st4, all_stages_succeed env_whisper_fails empty_state st4) /\
  file_exists urdu_audio_wav (snd (main env_whisper_fails empty_state)) = true.
Proof.
  assert (Hok : exists st4, all_stages_succeed env_ok empty_state st4).
  { eexists. eapply stages_ok; vm_compute; reflexivity. }
  assert (Hno : ~ (exists st4, all_stages_succeed env_whisper_fails empty_state st4)).
  { intros [st4 H]. destruct H as [st1 u st2 e st3 st4 E1 E2 _ _ _ _].
    vm_compute in E1. inversion E1; subst st1; clear E1.
    vm_compute in E2. discriminate E2. }
  split; [exact Hok|].
  split; [reflexivity|].
  split.
  - apply (proj1 (proj2 (cleanup_iff_all_stages_succeed env_ok empty_state)) Hok).
    reflexivity.
  - split; [exact Hno|].
    apply (proj2 (proj2 (cleanup_iff_all_stages_succeed env_whisper_fails empty_state)) Hno).
    reflexivity.
Defined.

(* ===================================================================== *)
(** * Recording                                                           *)
(* ===================================================================== *)

(** Puts the trace of a path in the form [trace st ++ events]. *)
Ltac flatten_trace :=
  cbn [trace log touch unlink fst snd];
  rewrite <- ?app_assoc; cbn [app].

(** Finds, among the events of a path, the call named by a hypothesis. *)
Ltac pick_call :=
  match goal with
  | H : raises ?env ?c = Some ?e |- exists c', In (Call c') _ /\ raises ?env c' = Some ?e =>
      exists c; split; [cbn [In]; tauto | exact H]
  end.

Ltac calls_answered :=
  let c := fresh "c" in
  let Hin := fresh "Hin" in
  intros c Hin; cbn [In] in Hin;
  repeat match goal with
         | H : _ \/ _ |- _ => destruct H as [H|H]
         end;
  try contradiction; try discriminate;
  match goal with
  | H : Call _ = Call _ |- _ => inversion H; subst; assumption
  end.

(** The exception a branch of the analysis caught, found from the
    console line or from the exception that left. *)
Ltac origin_of_exception :=
  first
    [ left; left; pick_call
    | left; right;
      match goal with
      | H : can_print ?env ?t = false |- _ =>
          exists t; split; [exact H | reflexivity]
      end
    | right; split; [|reflexivity];
      match goal with
      | |- recorded ?env = [] =>
          destruct (recorded env); [reflexivity | discriminate]
      end ].

(** C7, as the code has it.  Every run of [record_urdu_audio] ends in one of
    four ways.  It returns [True], and then no call it made failed.  Or it
    returns [False]: an instance of [Exception] was raised inside the [try]
    block (by one of its calls, by a [print] the stream could not encode,
    or by the peak of an empty buffer) and the last thing it did was to
    print the error line for it.  Or an exception that is no instance of
    [Exception] was raised by one of its calls, and that exception reaches
    the caller.  Or an instance of [Exception] was caught, but the stream
    cannot encode the error line: then the exception of the handler's own
    [print] reaches the caller. *)
Theorem record_urdu_audio_error_policy
    (filename : str) (duration : Z) (env : Env) (st : State) :
  exists evs,
    trace (snd (record_urdu_audio filename duration env st))
    = trace st ++ Enter f_record_urdu_audio :: evs /\
    match fst (record_urdu_audio filename duration env st) with
    | Return true => forall c, In (Call c) evs -> raises env c = None
    | Return false =>
        exists e,
          isinstance_Exception e = true /\
          (raised_inside env evs e \/
           (recorded env = [] /\ e = empty_buffer_error)) /\
          last evs (Enter f_main) = Console (recording_failed e)
    | Raise x =>
        (isinstance_Exception x = false /\
         exists c, In (Call c) evs /\ raises env c = Some x) \/
        (exists e,
            isinstance_Exception e = true /\
            (raised_inside env evs e \/
             (recorded env = [] /\ e = empty_buffer_error)) /\
            can_print env (recording_failed e) = false /\
            x = encode_error (stdout env) (recording_failed e))
    end.
Proof.
  record_paths env; eexists; (split; [flatten_trace; reflexivity|]);
    cbn [fst snd].
  all: try solve [calls_answered].
  all: try solve [left; split; [assumption | pick_call]].
  all: try solve [eexists; (split; [|split]);
                  [ | | reflexivity ];
                  [ first [assumption | reflexivity]
                  | origin_of_exception ]].
  all: try solve [right; eexists; (split; [|split; [|split]]);
                  [ | | | reflexivity ];
                  [ first [assumption | reflexivity]
                  | origin_of_exception
                  | assumption ]].
Qed.

(** C7, as the claim has it, fails: Ctrl-C while [sd.wait()] blocks raises
    KeyboardInterrupt, which [except Exception] does not catch.  The
    function neither returns nor prints its error line.  (So does a
    console that cannot encode the error line: see
    [record_urdu_audio_on_cp1252].) *)
Lemma record_urdu_audio_interrupt_escapes :
  fst (record_urdu_audio urdu_audio_wav 7 env_interrupted empty_state)
  = Raise KeyboardInterrupt /\
  ~ In (Console (recording_failed KeyboardInterrupt))
       (trace (snd (record_urdu_audio urdu_audio_wav 7 env_interrupted empty_state))) /\
  ~ (forall filename duration env st,
        exists b, fst (record_urdu_audio filename duration env st) = Return b).
Proof.
  split; [reflexivity|]. split.
  - vm_compute. intuition discriminate.
  - intros H.
    destruct (H urdu_audio_wav 7%Z env_interrupted empty_state) as [b Hb].
    vm_compute in Hb. discriminate Hb.
Qed.

(** The ordinary failure: without an input device the function prints its
    error line and returns [False]. *)
Example record_urdu_audio_no_device :
  record_urdu_audio urdu_audio_wav 7 env_no_device empty_state
  = (Return false,
     {| trace := [ Enter f_record_urdu_audio;
                   Console ([0xA; 0x1F3A4]%N ++ lit " Speak Urdu clearly for 7 seconds...");
                   Call (sd_rec 308700 44100 1);
                   Console (recording_failed
                            (Exc "PortAudioError" (lit "Error querying device -1"))) ];
        files := [] |}).
Proof. reflexivity. Qed.

Section Normalization.

Import F32.

Lemma fold_maximum_silence (r : list float32) :
  silent r -> fold_left maximum (map SFabs r) zero = zero.
Proof.
  induction 1 as [|x r Hx _ IH]; [reflexivity|].
  destruct x; try discriminate. exact IH.
Qed.

Lemma peak_of_silence (a : list float32) (peak : float32) :
  silent a -> np_max (np_abs a) = Some peak -> peak = zero.
Proof.
  intros Hs. destruct Hs as [|x r Hx Hr]; [discriminate|].
  destruct x; try discriminate.
  simpl. intros H. injection H as <-. now apply fold_maximum_silence.
Qed.

Lemma silence_over_zero (a : list float32) :
  silent a -> np_div a zero = map (fun _ => nan) a.
Proof.
  induction 1 as [|x r Hx _ IH]; [reflexivity|].
  unfold np_div in *. simpl. rewrite IH. f_equal.
  destruct x as [[|]| | |]; try discriminate; reflexivity.
Qed.

(** The order of IEEE comparison on absolute values. *)
Ltac compare_cases :=
  repeat match goal with
         | |- context [Z.compare ?a ?b] => destruct (Z.compare_spec a b)
         | |- context [Pos.compare ?a ?b] => destruct (Pos.compare_spec a b)
         | |- context [Pos.compare_cont Eq ?a ?b] =>
             change (Pos.compare_cont Eq a b) with (Pos.compare a b);
             destruct (Pos.compare_spec a b)
         end;
  subst; intros; try reflexivity; try discriminate; try lia.

Lemma abs_not_nan (x : float32) : x <> S754_nan -> is_nan (SFabs x) = false.
Proof. destruct x; [reflexivity | reflexivity | congruence | reflexivity]. Qed.

Lemma abs_leb_refl (x : float32) :
  x <> S754_nan -> SFleb (SFabs x) (SFabs x) = true.
Proof.
  destruct x as [s|s| |s m e]; intros H; try congruence;
    unfold SFleb, SFcompare, SFabs; compare_cases.
Qed.

Lemma abs_ltb_leb (x y : float32) :
  SFltb (SFabs x) (SFabs y) = true -> SFleb (SFabs x) (SFabs y) = true.
Proof.
  unfold SFltb, SFleb. destruct (SFcompare (SFabs x) (SFabs y)) as [[| |]|];
    intros H; try discriminate; reflexivity.
Qed.

Lemma abs_not_ltb_leb (x y : float32) :
  x <> S754_nan -> y <> S754_nan ->
  SFltb (SFabs x) (SFabs y) = false -> SFleb (SFabs y) (SFabs x) = true.
Proof.
  destruct x as [s|s| |s m e]; destruct y as [s'|s'| |s' m' e'];
    intros Hx Hy; try congruence;
    unfold SFltb, SFleb, SFcompare, SFabs; compare_cases.
Qed.

Lemma abs_leb_trans (x y z : float32) :
  SFleb (SFabs x) (SFabs y) = true -> SFleb (SFabs y) (SFabs z) = true ->
  SFleb (SFabs x) (SFabs z) = true.
Proof.
  destruct x as [s|s| |s m e]; destruct y as [s'|s'| |s' m' e'];
    destruct z as [s''|s''| |s'' m'' e''];
    unfold SFleb, SFcompare, SFabs; compare_cases.
Qed.

(** The fold of [np.max] over absolute values: the result is one of them
    and bounds them all. *)
Lemma fold_maximum_bound (r : list float32) :
  forall y, y <> S754_nan -> ~ In S754_nan r ->
  exists z,
    (z = y \/ In z r) /\
    fold_left maximum (map SFabs r) (SFabs y) = SFabs z /\
    SFleb (SFabs y) (SFabs z) = true /\
    forall x, In x r -> SFleb (SFabs x) (SFabs z) = true.
Proof.
  induction r as [|a r IH]; intros y Hy Hr.
  - exists y. split; [now left|]. split; [reflexivity|].
    split; [now apply abs_leb_refl | intros x []].
  - assert (Ha : a <> S754_nan) by (intros ->; apply Hr; now left).
    assert (Hr' : ~ In S754_nan r) by (intros H; apply Hr; now right).
    cbn [map fold_left]. unfold maximum at 2.
    rewrite (abs_not_nan Hy), (abs_not_nan Ha).
    destruct (SFltb (SFabs y) (SFabs a)) eqn:E.
    + destruct (IH a Ha Hr') as (z & Hz & Hf & Hle & Hall).
      exists z. split; [destruct Hz as [->|Hz]; right; [now left | now right]|].
      split; [exact Hf|]. split.
      * eapply abs_leb_trans; [apply abs_ltb_leb; exact E | exact Hle].
      * intros x [<-|Hx]; [exact Hle | now apply Hall].
    + destruct (IH y Hy Hr') as (z & Hz & Hf & Hle & Hall).
      exists z. split; [destruct Hz as [->|Hz]; [now left | right; now right]|].
      split; [exact Hf|]. split; [exact Hle|].
      intros x [<-|Hx]; [|now apply Hall].
      eapply abs_leb_trans; [apply (abs_not_ltb_leb Hy Ha E) | exact Hle].
Qed.

Lemma np_max_bound (a : list float32) (peak : float32) :
  ~ In S754_nan a -> np_max (np_abs a) = Some peak ->
  In peak (map SFabs a) /\
  forall x, In x a -> SFleb (SFabs x) peak = true.
Proof.
  destruct a as [|y r]; [discriminate|]. intros Hn H.
  cbn [np_abs map np_max] in H. injection H as <-.
  assert (Hy : y <> S754_nan) by (intros ->; apply Hn; now left).
  assert (Hr : ~ In S754_nan r) by (intros H; apply Hn; now right).
  destruct (@fold_maximum_bound r y Hy Hr) as (z & Hz & -> & Hle & Hall).
  split.
  - apply in_map. destruct Hz as [->|Hz]; [now left | now right].
  - intros x [<-|Hx]; [exact Hle | now apply Hall].
Qed.

Lemma fold_maximum_nan (l : list float32) :
  fold_left maximum l S754_nan = S754_nan.
Proof. induction l as [|a l IH]; [reflexivity | exact IH]. Qed.

Lemma fold_maximum_meets_nan (r : list float32) :
  In S754_nan r ->
  forall acc, fold_left maximum (map SFabs r) acc = S754_nan.
Proof.
  induction r as [|a r IH]; intros Hin acc; [contradiction|].
  cbn [map fold_left]. destruct Hin as [->|Hin]; [|now apply IH].
  cbn [SFabs]. unfold maximum at 2.
  destruct (is_nan acc) eqn:E.
  - destruct acc; try discriminate. apply fold_maximum_nan.
  - cbn [is_nan]. apply fold_maximum_nan.
Qed.

Lemma np_max_nan (a : list float32) (peak : float32) :
  In S754_nan a -> np_max (np_abs a) = Some peak -> peak = S754_nan.
Proof.
  destruct a as [|y r]; [contradiction|]. intros Hin H.
  cbn [np_abs map np_max] in H. injection H as <-.
  destruct Hin as [->|Hin]; [apply fold_maximum_nan|].
  now apply fold_maximum_meets_nan.
Qed.

End Normalization.

(** C8.  When capture succeeds, the buffer handed to the WAV writer is the
    recorded buffer with every sample divided (binary32 division) by the
    peak absolute amplitude: the absolute value of one of the samples,
    at least as large as the absolute value of every sample (NaN when a
    sample is NaN).  Nothing guards the division: for a buffer of silence
    the peak is zero and the writer receives a buffer in which every
    sample is NaN. *)
Theorem normalization_is_unguarded
    (filename : str) (duration : Z) (env : Env) (st : State) :
  can_print env (recording_prompt duration) = true ->
  raises env (sd_rec (duration * 44100) 44100 1) = None ->
  raises env sd_wait = None ->
  recorded env <> [] ->
  exists peak,
    (In S754_nan (recorded env) -> peak = S754_nan) /\
    (~ In S754_nan (recorded env) ->
     In peak (map SFabs (recorded env)) /\
     forall x, In x (recorded env) -> SFleb (SFabs x) peak = true) /\
    In (Call (wavfile_write filename 44100
                (map (fun x => SFdiv 24 128 x peak) (recorded env))))
       (trace (snd (record_urdu_audio filename duration env st))) /\
    (silent (recorded env) ->
     peak = S754_zero false /\
     map (fun x => SFdiv 24 128 x peak) (recorded env)
     = map (fun _ => S754_nan) (recorded env)).
Proof.
  intros Hprint Hrec Hwait Hne.
  destruct (F32.np_max (F32.np_abs (recorded env))) as [peak|] eqn:Hpeak.
  2:{ destruct (recorded env); [congruence | discriminate]. }
  exists peak.
  split; [intros Hn; eapply np_max_nan; eassumption|].
  split; [intros Hn; now apply np_max_bound|].
  split.
  - unfold record_urdu_audio. fold (recording_prompt duration).
    monad_paths env; try congruence;
      match goal with
      | H : F32.np_max _ = Some ?p |- _ =>
          assert (p = peak) by congruence; subst p
      end;
      flatten_trace; apply in_or_app; right;
      unfold F32.np_div, F32.div, F32.prec, F32.emax; cbn [In]; tauto.
  - intros Hs.
    assert (Hz : peak = F32.zero) by (eapply peak_of_silence; eassumption).
    split; [exact Hz|]. subst peak.
    exact (silence_over_zero Hs).
Qed.

Lemma normalization_is_unguarded_witness :
  silent (recorded env_silent) /\
  In (Call (wavfile_write urdu_audio_wav 44100
              [S754_nan; S754_nan; S754_nan; S754_nan]))
     (trace (snd (record_urdu_audio urdu_audio_wav 7 env_silent empty_state))).
Proof.
  assert (Hs : silent (recorded env_silent)) by (repeat constructor).
  split; [exact Hs|].
  destruct (@normalization_is_unguarded urdu_audio_wav 7 env_silent empty_state
              eq_refl eq_refl eq_refl ltac:(discriminate))
    as (peak & _ & _ & Hin & Hnan).
  destruct (Hnan Hs) as [_ E].
  rewrite E in Hin. exact Hin.
Defined.

(** On a buffer with sound the peak is the loudest sample. *)
Example peak_of_speech :
  F32.np_max (F32.np_abs [half; SFopp one; F32.zero]) = Some one /\
  F32.np_max (F32.np_abs [SFopp half; F32.zero; half]) = Some half.
Proof. split; reflexivity. Qed.

(** An ordinary buffer for comparison: peak 1.0, samples scaled by it. *)
Example normalization_of_speech :
  F32.np_max (F32.np_abs (recorded env_ok)) = Some one /\
  F32.np_div (recorded env_ok) one = [half; SFopp one; F32.zero].
Proof. split; reflexivity. Qed.

(* ===================================================================== *)
(** * Pre-processing before translation                                   *)
(* ===================================================================== *)

(** Replacing a one-character substring is a character-wise map. *)
Lemma replace_char (x y : N) (s : str) :
  replace s [x] [y] = map (fun c => if (c =? x)%N then y else c) s.
Proof.
  unfold replace.
  induction s as [|c s IH]; [reflexivity|].
  cbn [replace_scan startswith List.length Nat.sub map].
  rewrite andb_true_r, N.eqb_sym.
  destruct (c =? x)%N; simpl; now rewrite IH.
Qed.

(** Padding a two-character word [a b] with a character [sp] that is
    neither of the two. *)
Section Padding.

Variables a b sp : N.
Hypothesis a_not_b : a <> b.
Hypothesis sp_not_a : sp <> a.
Hypothesis sp_not_b : sp <> b.

(** The three shapes of a scan: at the end, at a match, elsewhere. *)
Lemma pad_scan_cases (t : str) :
  (t = [] /\ pad_scan a b sp t = []) \/
  (exists t', t = a :: b :: t' /\ pad_scan a b sp t = sp :: a :: b :: sp :: pad_scan a b sp t') \/
  (exists c t', t = c :: t' /\ startswith [a; b] t = false /\
                pad_scan a b sp t = c :: pad_scan a b sp t').
Proof.
  destruct t as [|c t']; [now left|]. right.
  destruct (startswith [a; b] (c :: t')) eqn:E.
  - left. apply startswith_split in E.
    remember (skipn (List.length [a; b]) (c :: t')) as rest.
    exists rest. split; [exact E|].
    rewrite E. unfold pad_scan.
    rewrite replace_scan_hit by discriminate. reflexivity.
  - right. exists c, t'. split; [reflexivity|]. split; [reflexivity|].
    apply replace_scan_miss. exact E.
Qed.

Lemma startswith_word (t : str) : startswith [a; b] (a :: b :: t) = true.
Proof. simpl. now rewrite !N.eqb_refl. Qed.

(** What a scan starts with: the padding space at a match, the text's own
    first character elsewhere.  In particular it never starts with [b]
    right after an unmatched [a]. *)
Lemma pad_scan_after_a (t : str) (post : str) :
  startswith [a; b] (a :: t) = false -> pad_scan a b sp t <> b :: post.
Proof.
  intros Hmiss Hscan.
  destruct (pad_scan_cases t) as [[_ E] | [(t' & _ & E) | (c & t' & -> & _ & E)]];
    rewrite E in Hscan.
  - discriminate.
  - injection Hscan as H H'. congruence.
  - injection Hscan as H H'. subst c.
    rewrite startswith_word in Hmiss. discriminate.
Qed.

(** Every occurrence of the word in the result has the padding character
    on both sides. *)
Lemma pad_scan_surrounded (n : nat) :
  forall t, (List.length t <= n)%nat ->
  forall pre post, pad_scan a b sp t = pre ++ a :: b :: post ->
  (exists pre', pre = pre' ++ [sp]) /\ (exists post', post = sp :: post').
Proof.
  induction n as [|n IH]; intros t Hlen pre post Hocc.
  - destruct t; [|simpl in Hlen; lia].
    destruct pre; discriminate.
  - destruct (pad_scan_cases t)
      as [[_ E] | [(t' & -> & E) | (c & t' & -> & Hmiss & E)]];
      rewrite E in Hocc.
    + destruct pre; discriminate.
    + destruct pre as [|p0 pre]; [cbn [app] in Hocc; congruence|].
      injection Hocc as H0 Hocc.
      destruct pre as [|p1 pre].
      { cbn [app] in Hocc. injection Hocc as Hpost. subst p0 post.
        split; [now exists [] | now eexists]. }
      injection Hocc as H1 Hocc.
      destruct pre as [|p2 pre]; [cbn [app] in Hocc; congruence|].
      injection Hocc as H2 Hocc.
      destruct pre as [|p3 pre]; [cbn [app] in Hocc; congruence|].
      injection Hocc as H3 Hocc.
      destruct (IH t' ltac:(simpl in Hlen; lia) pre post Hocc)
        as [[pre' ->] Hpost].
      split; [|exact Hpost].
      exists (p0 :: p1 :: p2 :: p3 :: pre'). reflexivity.
    + destruct pre as [|p0 pre].
      * cbn [app] in Hocc. injection Hocc as Hc Hocc. subst c.
        exfalso. eapply pad_scan_after_a; eassumption.
      * injection Hocc as Hc Hocc.
        destruct (IH t' ltac:(simpl in Hlen; lia) pre post Hocc)
          as [[pre' ->] Hpost].
        split; [|exact Hpost].
        exists (p0 :: pre'). reflexivity.
Qed.

(** Where the text has no match, the result has no padded word. *)
Lemma pad_scan_no_padded (c : N) (t : str) :
  startswith [a; b] (c :: t) = false ->
  startswith [sp; a; b; sp] (c :: pad_scan a b sp t) = false.
Proof.
  intros Hmiss.
  cbn [startswith].
  destruct (N.eqb_spec sp c) as [<-|]; [|reflexivity].
  cbn [andb].
  destruct (pad_scan_cases t)
    as [[_ E] | [(t' & _ & E) | (c' & t' & -> & Hmiss' & E)]]; rewrite E.
  - reflexivity.
  - apply N.eqb_neq in sp_not_a. rewrite N.eqb_sym in sp_not_a.
    now rewrite sp_not_a.
  - destruct (N.eqb_spec a c') as [<-|]; [|reflexivity].
    cbn [andb].
    destruct (pad_scan a b sp t') as [|y r] eqn:E'; [reflexivity|].
    destruct (N.eqb_spec b y) as [<-|]; [|reflexivity].
    exfalso. eapply pad_scan_after_a; eassumption.
Qed.

(** Taking the padding away again gives the text back: the padding is all
    that was added. *)
Lemma pad_scan_undo (n : nat) :
  forall t, (List.length t <= n)%nat ->
  replace_scan [sp; a; b; sp] [a; b] 0 (pad_scan a b sp t) = t.
Proof.
  induction n as [|n IH]; intros t Hlen.
  - destruct t; [reflexivity | simpl in Hlen; lia].
  - destruct (pad_scan_cases t)
      as [[-> E] | [(t' & -> & E) | (c & t' & -> & Hmiss & E)]];
      rewrite E.
    + reflexivity.
    + change (sp :: a :: b :: sp :: pad_scan a b sp t')
        with ([sp; a; b; sp] ++ pad_scan a b sp t').
      rewrite replace_scan_hit by discriminate.
      rewrite IH by (simpl in Hlen; lia). reflexivity.
    + rewrite replace_scan_miss by (now apply pad_scan_no_padded).
      rewrite IH by (simpl in Hlen; lia). reflexivity.
Qed.

(** The scan adds no character other than the padding character. *)
Lemma pad_scan_chars (n : nat) :
  forall t, (List.length t <= n)%nat ->
  forall x, In x (pad_scan a b sp t) -> x = sp \/ In x t.
Proof.
  induction n as [|n IH]; intros t Hlen x Hin.
  - destruct t; [contradiction | simpl in Hlen; lia].
  - destruct (pad_scan_cases t)
      as [[-> E] | [(t' & -> & E) | (c & t' & -> & Hmiss & E)]];
      rewrite E in Hin.
    + contradiction.
    + cbn [In] in *.
      destruct Hin as [H|[H|[H|[H|H]]]]; auto.
      destruct (IH t' ltac:(simpl in Hlen; lia) x H); auto.
    + cbn [In] in *.
      destruct Hin as [H|H]; auto.
      destruct (IH t' ltac:(simpl in Hlen; lia) x H); auto.
Qed.

End Padding.

Lemma preprocess_scan (s : str) :
  preprocess s = pad_scan 0x6C1 0x6D2 SPACE (latin_periods s).
Proof.
  unfold preprocess, U_FULL_STOP. rewrite replace_char. reflexivity.
Qed.

Lemma latin_periods_no_full_stop (s : str) : ~ In 0x6D4%N (latin_periods s).
Proof.
  unfold latin_periods. rewrite in_map_iff. intros (c & Hc & _).
  destruct (N.eqb_spec c 0x6D4); [discriminate | congruence].
Qed.

(** An accepted input reaches the tokenizer, and what the tokenizer is
    given is the pre-processed text. *)
Lemma translate_urdu_tokenizes_preprocessed (env : Env) (st : State) (s : str) :
  (3 <= len s)%Z ->
  exists rest,
    trace (snd (translate_urdu (Some s) env st))
    = trace st ++ Enter f_translate_urdu
               :: Call (tokenizer_encode (preprocess s)) :: rest.
Proof.
  intros Hlen. unfold translate_urdu.
  assert (Hacc : negb (truthy s) || (len s <? 3)%Z = false).
  { destruct s; [unfold len in Hlen; simpl in Hlen; lia|].
    simpl negb. simpl orb. apply Z.ltb_ge. exact Hlen. }
  rewrite Hacc.
  monad_paths env; flatten_trace; eexists; reflexivity.
Qed.

(** C9.  For an input of three characters or more, the first thing
    [translate_urdu] does is to hand the tokenizer the pre-processed text.
    In that text every Urdu full stop of the input has become a Latin
    period and none is left; every occurrence of the word U+06C1 U+06D2 has
    a space immediately before and after it; and taking one space away on
    each side of the word gives the text back, so the padding is a single
    space on each side and nothing else has changed. *)
Theorem preprocess_before_tokenization (env : Env) (st : State) (s : str) :
  (3 <= len s)%Z ->
  (exists rest,
      trace (snd (translate_urdu (Some s) env st))
      = trace st ++ Enter f_translate_urdu
                 :: Call (tokenizer_encode (preprocess s)) :: rest) /\
  replace s U_FULL_STOP [PERIOD] = latin_periods s /\
  ~ In 0x6D4%N (preprocess s) /\
  (forall pre post,
      preprocess s = pre ++ U_HE ++ post ->
      (exists pre', pre = pre' ++ [SPACE]) /\ (exists post', post = SPACE :: post')) /\
  replace (preprocess s) PADDED_HE U_HE = latin_periods s.
Proof.
  intros Hlen.
  split; [now apply translate_urdu_tokenizes_preprocessed|].
  split; [apply replace_char|].
  split; [|split].
  - rewrite preprocess_scan. intros Hin.
    apply pad_scan_chars with (n := List.length (latin_periods s)) in Hin;
      try discriminate; try apply Nat.le_refl.
    destruct Hin as [H|H]; [discriminate|].
    exact (latin_periods_no_full_stop s H).
  - intros pre post Hocc. rewrite preprocess_scan in Hocc.
    unfold U_HE in Hocc. cbn [app] in Hocc.
    eapply pad_scan_surrounded with (n := List.length (latin_periods s));
      try eassumption; try discriminate; apply Nat.le_refl.
  - rewrite preprocess_scan.
    apply pad_scan_undo with (n := List.length (latin_periods s));
      try discriminate; apply Nat.le_refl.
Qed.

Lemma preprocess_before_tokenization_witness :
  (3 <= len (U_MAIN ++ [SPACE] ++ U_HE ++ U_FULL_STOP))%Z /\
  preprocess (U_MAIN ++ [SPACE] ++ U_HE ++ U_FULL_STOP)
  = U_MAIN ++ [SPACE; SPACE] ++ U_HE ++ [SPACE; PERIOD] /\
  replace (preprocess (U_MAIN ++ [SPACE] ++ U_HE ++ U_FULL_STOP)) PADDED_HE U_HE
  = latin_periods (U_MAIN ++ [SPACE] ++ U_HE ++ U_FULL_STOP).
Proof.
  assert (Hlen : (3 <= len (U_MAIN ++ [SPACE] ++ U_HE ++ U_FULL_STOP))%Z)
    by (vm_compute; discriminate).
  split; [exact Hlen|].
  split; [reflexivity|].
  apply (preprocess_before_tokenization env_ok empty_state _ Hlen).
Defined.

(* ===================================================================== *)
(** * More on [strip] and [replace]                                       *)
(* ===================================================================== *)

Lemma lstrip_split (s : str) :
  exists ws, s = ws ++ lstrip s /\ all_whitespace ws.
Proof.
  induction s as [|c s (ws & IH & Hws)]; simpl.
  - exists []. split; [reflexivity | constructor].
  - destruct (isspace c) eqn:E.
    + exists (c :: ws). split; [simpl; now f_equal | now constructor].
    + exists []. split; [reflexivity | constructor].
Qed.

Lemma all_whitespace_rev (s : str) : all_whitespace s -> all_whitespace (rev s).
Proof. unfold all_whitespace. apply Forall_rev. Qed.

Lemma rstrip_split (s : str) :
  exists ws, s = rstrip s ++ ws /\ all_whitespace ws.
Proof.
  destruct (lstrip_split (rev s)) as (ws & H & Hws).
  exists (rev ws). split; [|now apply all_whitespace_rev].
  unfold rstrip. rewrite <- rev_app_distr, <- H. now rewrite rev_involutive.
Qed.

(** [strip] only takes whitespace away, and only at the two ends: the
    string is its stripped form between two runs of whitespace. *)
Theorem strip_removes_only_edge_whitespace (s : str) :
  exists l r, s = l ++ strip s ++ r /\ all_whitespace l /\ all_whitespace r.
Proof.
  destruct (lstrip_split s) as (l & Hl & Hwl).
  destruct (rstrip_split (lstrip s)) as (r & Hr & Hwr).
  exists l, r. split; [|split; assumption].
  unfold strip. rewrite <- Hr. exact Hl.
Qed.

Lemma lstrip_clean_head (s : str) :
  match s with [] => True | c :: _ => isspace c = false end -> lstrip s = s.
Proof. destruct s as [|c s]; simpl; [reflexivity|]. now intros ->. Qed.

Lemma rev_head_last (c : N) (s : str) :
  exists l, rev (c :: s) = last (c :: s) c :: l.
Proof.
  assert (Hne : c :: s <> []) by discriminate.
  pose proof (app_removelast_last c Hne) as E.
  remember (c :: s) as t.
  apply (f_equal (@rev N)) in E.
  rewrite rev_app_distr in E. cbn [rev app] in E.
  eexists. exact E.
Qed.

Lemma strip_clean (t : str) : stripped t -> strip t = t.
Proof.
  unfold stripped, strip. destruct t as [|c t]; [reflexivity|].
  intros [Hh Hl].
  rewrite lstrip_clean_head by exact Hh.
  unfold rstrip.
  destruct (rev_head_last c t) as [l E].
  rewrite lstrip_clean_head; [apply rev_involutive|].
  rewrite E. exact Hl.
Qed.

(** [strip] is idempotent, and the strings it leaves unchanged are exactly
    those with no whitespace at either end. *)
Theorem strip_fixes_exactly_stripped (s : str) :
  strip (strip s) = strip s /\ (stripped s <-> strip s = s).
Proof.
  split; [apply strip_clean, strip_stripped|].
  split; [apply strip_clean|].
  intros <-. apply strip_stripped.
Qed.

Lemma occurs_tail (old : str) (c : N) (s : str) : occurs old s -> occurs old (c :: s).
Proof. intros (pre & post & ->). now exists (c :: pre), post. Qed.

Lemma startswith_occurs (old s : str) : startswith old s = true -> occurs old s.
Proof.
  intros H. apply startswith_split in H.
  exists [], (skipn (List.length old) s). exact H.
Qed.

(** Where the pattern does not occur, [replace] changes nothing. *)
Lemma replace_absent (s old new : str) :
  old <> [] -> ~ occurs old s -> replace s old new = s.
Proof.
  intros Hne. unfold replace. destruct old as [|x old]; [congruence|].
  induction s as [|c s IH]; intros Hno; [reflexivity|].
  rewrite replace_scan_miss.
  - f_equal. apply IH. intros H. apply Hno. now apply occurs_tail.
  - destruct (startswith (x :: old) (c :: s)) eqn:E; [|reflexivity].
    elim Hno. now apply startswith_occurs.
Qed.

(** A replacement that is no longer than the pattern never makes the
    string longer. *)
Lemma replace_scan_length_le (old new : str) :
  old <> [] -> (List.length new <= List.length old)%nat ->
  forall n s, (List.length s <= n)%nat ->
  (List.length (replace_scan old new 0 s) <= List.length s)%nat.
Proof.
  intros Hne Hlen n; induction n as [|n IH]; intros s Hs.
  - destruct s; [simpl; lia | simpl in Hs; lia].
  - destruct s as [|c s]; [simpl; lia|].
    destruct (startswith old (c :: s)) eqn:E.
    + apply startswith_split in E.
      remember (skipn (List.length old) (c :: s)) as rest.
      assert (Hrest : (List.length rest <= n)%nat).
      { apply (f_equal (@List.length N)) in E. rewrite length_app in E.
        simpl in E, Hs. destruct old; [congruence|]. simpl in E. lia. }
      rewrite E, replace_scan_hit by assumption.
      rewrite !length_app. specialize (IH rest Hrest). lia.
    + rewrite replace_scan_miss by assumption. simpl.
      specialize (IH s ltac:(simpl in Hs; lia)). lia.
Qed.

Lemma replace_length_le (s old new : str) :
  old <> [] -> (List.length new <= List.length old)%nat ->
  (List.length (replace s old new) <= List.length s)%nat.
Proof.
  intros Hne Hlen. unfold replace. destruct old as [|x old]; [congruence|].
  now apply replace_scan_length_le with (n := List.length s).
Qed.

(** The post-translation fixes never make the text longer, and a text that
    contains none of the three phrases comes out unchanged. *)
Theorem apply_fixes_shrinks_or_keeps (english : str) :
  (List.length (apply_fixes english) <= List.length english)%nat /\
  (~ occurs (lit "I am") english ->
   ~ occurs (lit "you are") english ->
   ~ occurs (lit "he is") english ->
   apply_fixes english = english).
Proof.
  unfold apply_fixes, fixes. cbn [fold_left fst snd]. split.
  - etransitivity; [apply replace_length_le; [discriminate | simpl; lia]|].
    etransitivity; [apply replace_length_le; [discriminate | simpl; lia]|].
    apply replace_length_le; [discriminate | simpl; lia].
  - intros H1 H2 H3.
    rewrite (@replace_absent english (lit "I am")) by (discriminate || assumption).
    rewrite (@replace_absent english (lit "you are")) by (discriminate || assumption).
    apply replace_absent; [discriminate | assumption].
Qed.

(** Shows that a literal does not occur in a short concrete text. *)
Ltac no_occurrence :=
  let pre := fresh "pre" in
  let post := fresh "post" in
  let H := fresh "H" in
  intros (pre & post & H);
  repeat (destruct pre as [|? pre]; [discriminate H|]; cbn [app] in H;
          injection H as _ H);
  destruct pre; discriminate H.

Lemma apply_fixes_shrinks_or_keeps_witness :
  ~ occurs (lit "he is") (lit "we are") /\
  apply_fixes (lit "we are") = lit "we are".
Proof.
  assert (H1 : ~ occurs (lit "I am") (lit "we are")) by no_occurrence.
  assert (H2 : ~ occurs (lit "you are") (lit "we are")) by no_occurrence.
  assert (H3 : ~ occurs (lit "he is") (lit "we are")) by no_occurrence.
  split; [exact H3|].
  exact (proj2 (apply_fixes_shrinks_or_keeps (lit "we are")) H1 H2 H3).
Defined.

(** The fixes are literal substring replacements, blind to word
    boundaries: "she is" loses its verb like "he is" does. *)
Example apply_fixes_inside_a_word :
  apply_fixes (lit "she is here") = lit "she here" /\
  apply_fixes (lit "I am sure you are right") = lit "I sure you right".
Proof. split; reflexivity. Qed.

(** A text with no Urdu full stop and no occurrence of the word
    U+06C1 U+06D2 reaches the tokenizer as it is. *)
Theorem preprocess_keeps_plain_text (s : str) :
  ~ In 0x6D4%N s -> ~ occurs U_HE s -> preprocess s = s.
Proof.
  intros Hdot Hhe. unfold preprocess.
  assert (E : replace s U_FULL_STOP [PERIOD] = s).
  { apply replace_absent; [discriminate|].
    intros (pre & post & ->). apply Hdot.
    rewrite in_app_iff. right. now left. }
  rewrite E. apply replace_absent; [discriminate | exact Hhe].
Qed.

Lemma preprocess_keeps_plain_text_witness :
  ~ In 0x6D4%N U_MAIN /\ ~ occurs U_HE U_MAIN /\ preprocess U_MAIN = U_MAIN.
Proof.
  assert (Hdot : ~ In 0x6D4%N U_MAIN).
  { cbn. intros [H|[H|[H|[]]]]; discriminate H. }
  assert (Hhe : ~ occurs U_HE U_MAIN).
  { intros (pre & post & H).
    destruct pre as [|p0 [|p1 [|p2 [|p3 pre]]]]; cbn in H; discriminate H. }
  split; [exact Hdot|]. split; [exact Hhe|].
  exact (preprocess_keeps_plain_text Hdot Hhe).
Defined.

(* ===================================================================== *)
(** * The error policy of transcription and translation                   *)
(* ===================================================================== *)

Lemma transcribe_urdu_run (audio_path : str) (env : Env) (st : State) :
  transcribe_urdu audio_path env st =
  let w := whisper_transcribe audio_path (lit "ur") initial_prompt in
  let st1 := log (Call w) (log (Enter f_transcribe_urdu) st) in
  match raises env w with
  | None => (Return (Some (strip (transcript env audio_path))), st1)
  | Some e =>
      if isinstance_Exception e
      then
        if can_print env (transcription_failed e)
        then (Return None, log (Console (transcription_failed e)) st1)
        else (Raise (encode_error (stdout env) (transcription_failed e)), st1)
      else (Raise e, st1)
  end.
Proof.
  unfold transcribe_urdu, bind, try_except_Exception, enter, extcall, asks,
    ret, print.
  cbv zeta.
  destruct (raises env _) as [e|]; cbv beta iota.
  - destruct (isinstance_Exception e); [|reflexivity].
    fold (transcription_failed e).
    destruct (can_print env (transcription_failed e)); reflexivity.
  - now rewrite apply_corrections_id.
Qed.

(** [transcribe_urdu] calls the recognizer exactly once, first thing, and
    makes no other call: no retry, no fallback; it touches no file.  It
    returns a text exactly when the call answers, and the text is then the
    recognizer's with the whitespace at its ends removed.  It returns
    [None] exactly when the call raises an instance of [Exception] and the
    failure line can be printed.  Otherwise an exception reaches the
    caller: the call's own when it is no [Exception], that of the
    handler's [print] when the stream cannot encode the failure line. *)
Theorem transcribe_urdu_error_policy (audio_path : str) (env : Env) (st : State) :
  exists evs,
    trace (snd (transcribe_urdu audio_path env st))
    = trace st ++ Enter f_transcribe_urdu
               :: Call (whisper_transcribe audio_path (lit "ur") initial_prompt)
               :: evs /\
    (forall c, ~ In (Call c) evs) /\
    files (snd (transcribe_urdu audio_path env st)) = files st /\
    match fst (transcribe_urdu audio_path env st) with
    | Return (Some text) =>
        raises env (whisper_transcribe audio_path (lit "ur") initial_prompt) = None /\
        text = strip (transcript env audio_path) /\ evs = []
    | Return None =>
        exists e,
          raises env (whisper_transcribe audio_path (lit "ur") initial_prompt) = Some e /\
          isinstance_Exception e = true /\
          evs = [Console (transcription_failed e)]
    | Raise x =>
        evs = [] /\
        ((raises env (whisper_transcribe audio_path (lit "ur") initial_prompt) = Some x /\
          isinstance_Exception x = false) \/
         (exists e,
             raises env (whisper_transcribe audio_path (lit "ur") initial_prompt) = Some e /\
             isinstance_Exception e = true /\
             can_print env (transcription_failed e) = false /\
             x = encode_error (stdout env) (transcription_failed e)))
    end.
Proof.
  rewrite transcribe_urdu_run. cbv zeta.
  destruct (raises env _) as [e|] eqn:E.
  - destruct (isinstance_Exception e) eqn:Ee.
    + destruct (can_print env (transcription_failed e)) eqn:Ep; cbn [fst snd].
      * exists [Console (transcription_failed e)].
        split; [flatten_trace; reflexivity|].
        split; [intros c [H|[]]; discriminate H|].
        split; [reflexivity|]. exists e. auto.
      * exists []. split; [flatten_trace; reflexivity|].
        split; [intros c []|]. split; [reflexivity|].
        split; [reflexivity|]. right. exists e. auto.
    + cbn [fst snd]. exists []. split; [flatten_trace; reflexivity|].
      split; [intros c []|]. split; [reflexivity|].
      split; [reflexivity|]. left. auto.
  - cbn [fst snd]. exists []. split; [flatten_trace; reflexivity|].
    split; [intros c []|]. split; [reflexivity|]. auto.
Qed.

Lemma rejected_iff (s : str) :
  negb (truthy s) || (len s <? 3)%Z = true <-> (len s < 3)%Z.
Proof.
  destruct s as [|c s]; simpl.
  - unfold len. simpl. split; [lia | reflexivity].
  - apply Z.ltb_lt.
Qed.

Lemma accepted_iff (s : str) :
  negb (truthy s) || (len s <? 3)%Z = false <-> (3 <= len s)%Z.
Proof.
  destruct (negb (truthy s) || (len s <? 3)%Z) eqn:E.
  - apply rejected_iff in E. split; [discriminate | lia].
  - split; [intros _|reflexivity].
    destruct (Z.lt_ge_cases (len s) 3) as [H|H]; [|exact H].
    apply rejected_iff in H. congruence.
Qed.

Lemma translate_urdu_run (env : Env) (st : State) (s : str) (o : list Z) (rest : list (list Z)) :
  (3 <= len s)%Z ->
  raises env (tokenizer_encode (preprocess s)) = None ->
  raises env (translator_generate (encoded env (preprocess s))) = None ->
  generated env (encoded env (preprocess s)) = o :: rest ->
  raises env (tokenizer_decode o) = None ->
  translate_urdu (Some s) env st
  = (Return (Some (apply_fixes (decoded env o))),
     log (Call (tokenizer_decode o))
       (log (Call (translator_generate (encoded env (preprocess s))))
          (log (Call (tokenizer_encode (preprocess s)))
             (log (Enter f_translate_urdu) st)))).
Proof.
  intros Hlen H1 H2 H3 H4.
  apply accepted_iff in Hlen.
  unfold translate_urdu. rewrite Hlen.
  unfold bind, try_except_Exception, enter, extcall, asks, ret, raise.
  cbv zeta. rewrite H1. cbv beta iota.
  rewrite H2. cbv beta iota. rewrite H3. cbv beta iota.
  rewrite H4. reflexivity.
Qed.

(** When the three model calls answer for an accepted input, the result is
    the decoded first generated sequence with the fixes applied; the calls
    are tokenizer, generator, decoder, once each and in this order, and
    the rest of the generated batch is ignored. *)
Theorem translate_urdu_success
    (env : Env) (st : State) (s : str) (o : list Z) (rest : list (list Z)) :
  (3 <= len s)%Z ->
  raises env (tokenizer_encode (preprocess s)) = None ->
  raises env (translator_generate (encoded env (preprocess s))) = None ->
  generated env (encoded env (preprocess s)) = o :: rest ->
  raises env (tokenizer_decode o) = None ->
  translate_urdu (Some s) env st
  = (Return (Some (apply_fixes (decoded env o))),
     log (Call (tokenizer_decode o))
       (log (Call (translator_generate (encoded env (preprocess s))))
          (log (Call (tokenizer_encode (preprocess s)))
             (log (Enter f_translate_urdu) st)))).
Proof. apply translate_urdu_run. Qed.

Lemma translate_urdu_success_witness :
  (3 <= len (heard env_ok))%Z /\
  fst (translate_urdu (Some (heard env_ok)) env_ok empty_state)
  = Return (Some (lit "I here")).
Proof.
  assert (Hlen : (3 <= len (heard env_ok))%Z) by (vm_compute; discriminate).
  split; [exact Hlen|].
  rewrite (@translate_urdu_success env_ok empty_state (heard env_ok)
             [5; 9; 0]%Z [] Hlen eq_refl eq_refl eq_refl eq_refl).
  reflexivity.
Defined.

(** Every run of [translate_urdu] ends in one of five ways.  It returns a
    text: the input was accepted and no call it made failed.  It returns
    [None] at once, with no call and no console line: the input was
    [None] or shorter than three characters.  It returns [None] after
    printing the failure line: an instance of [Exception] was raised, by
    one of its calls or by indexing an empty generated batch.  An
    exception that is no instance of [Exception] was raised by one of its
    calls and reaches the caller.  Or an instance of [Exception] was
    caught but the stream cannot encode the failure line: then the
    exception of the handler's own [print] reaches the caller. *)
Theorem translate_urdu_error_policy (v : option str) (env : Env) (st : State) :
  exists evs,
    trace (snd (translate_urdu v env st))
    = trace st ++ Enter f_translate_urdu :: evs /\
    match fst (translate_urdu v env st) with
    | Return (Some english) =>
        ~ too_short v /\ forall c, In (Call c) evs -> raises env c = None
    | Return None =>
        (too_short v /\ evs = []) \/
        (exists e,
            isinstance_Exception e = true /\
            ((exists c, In (Call c) evs /\ raises env c = Some e) \/
             e = empty_batch_error) /\
            last evs (Enter f_main) = Console (translation_failed e))
    | Raise x =>
        (isinstance_Exception x = false /\
         exists c, In (Call c) evs /\ raises env c = Some x) \/
        (exists e,
            isinstance_Exception e = true /\
            ((exists c, In (Call c) evs /\ raises env c = Some e) \/
             e = empty_batch_error) /\
            can_print env (translation_failed e) = false /\
            x = encode_error (stdout env) (translation_failed e))
    end.
Proof.
  unfold translate_urdu.
  destruct v as [s|].
  2:{ exists []. split; [reflexivity|]. left. split; [exact I | reflexivity]. }
  destruct (negb (truthy s) || (len s <? 3)%Z) eqn:Hacc.
  { exists []. split; [reflexivity|]. left.
    split; [now apply rejected_iff | reflexivity]. }
  apply accepted_iff in Hacc.
  monad_paths env; eexists; (split; [flatten_trace; reflexivity|]);
    cbn [fst snd].
  all: try solve [split; [unfold too_short; lia | calls_answered]].
  all: try solve [left; split; [assumption | pick_call]].
  all: try solve [right; eexists; (split; [|split]);
                  [ | | reflexivity ];
                  [ first [assumption | reflexivity]
                  | first [left; pick_call | right; reflexivity] ]].
  all: try solve [right; eexists; (split; [|split; [|split]]);
                  [ | | | reflexivity ];
                  [ first [assumption | reflexivity]
                  | first [left; pick_call | right; reflexivity]
                  | assumption ]].
Qed.

(* ===================================================================== *)
(** * Recording and the file system                                       *)
(* ===================================================================== *)

Lemma file_exists_log (p : str) (ev : event) (st : State) :
  file_exists p (log ev st) = file_exists p st.
Proof. reflexivity. Qed.

Lemma file_exists_touch_mono (p q : str) (st : State) :
  file_exists p st = true -> file_exists p (touch q st) = true.
Proof.
  intros H. unfold touch, file_exists at 1. cbn [files].
  destruct (file_exists q st); [exact H|].
  simpl. fold (file_exists p st). rewrite H. apply orb_true_r.
Qed.

Lemma file_exists_touch_other (p q : str) (st : State) :
  PyStr.eqb p q = false -> file_exists p (touch q st) = file_exists p st.
Proof.
  intros H. unfold touch, file_exists at 1. cbn [files].
  destruct (file_exists q st); [reflexivity|].
  simpl. now rewrite H.
Qed.

(** [record_urdu_audio] deletes nothing, and the only path it can create
    is its own [filename]. *)
Theorem record_urdu_audio_touches_only_its_file
    (filename : str) (duration : Z) (env : Env) (st : State) (p : str) :
  (file_exists p st = true ->
   file_exists p (snd (record_urdu_audio filename duration env st)) = true) /\
  (PyStr.eqb p filename = false ->
   file_exists p (snd (record_urdu_audio filename duration env st))
   = file_exists p st).
Proof.
  split; intros H; record_paths env; cbn [snd];
    repeat first [ rewrite file_exists_log
                 | rewrite file_exists_touch_other by exact H
                 | apply file_exists_touch_mono ];
    solve [reflexivity | exact H].
Qed.

Lemma record_urdu_audio_touches_only_its_file_witness :
  file_exists (lit "notes.txt")
    (snd (record_urdu_audio urdu_audio_wav 7 env_ok
            {| trace := []; files := [lit "notes.txt"] |})) = true /\
  file_exists (lit "other.wav")
    (snd (record_urdu_audio urdu_audio_wav 7 env_ok
            {| trace := []; files := [lit "notes.txt"] |})) = false.
Proof.
  split.
  - apply (proj1 (record_urdu_audio_touches_only_its_file urdu_audio_wav 7 env_ok
                    {| trace := []; files := [lit "notes.txt"] |} (lit "notes.txt"))).
    reflexivity.
  - rewrite (proj2 (record_urdu_audio_touches_only_its_file urdu_audio_wav 7 env_ok
                      {| trace := []; files := [lit "notes.txt"] |} (lit "other.wav")));
      reflexivity.
Defined.


(** Unless the device call and the wait both return and the buffer is not
    empty, [record_urdu_audio] does not report success, hands nothing to
    the WAV writer and leaves the files as they were. *)
Theorem record_urdu_audio_needs_capture
    (filename : str) (duration : Z) (env : Env) (st : State) :
  raises env (sd_rec (duration * 44100) 44100 1) <> None \/
  raises env sd_wait <> None \/
  recorded env = [] ->
  fst (record_urdu_audio filename duration env st) <> Return true /\
  files (snd (record_urdu_audio filename duration env st)) = files st /\
  forall data,
    In (Call (wavfile_write filename 44100 data))
       (trace (snd (record_urdu_audio filename duration env st))) ->
    In (Call (wavfile_write filename 44100 data)) (trace st).
Proof.
  intros H. record_paths env; cbn [fst snd].
  all: try solve [destruct H as [H|[H|H]];
                  [congruence | congruence
                  | rewrite H in *; discriminate]].
  all: split; [discriminate|]; split; [reflexivity|].
  all: intros data Hin; revert Hin; flatten_trace; rewrite in_app_iff;
    intros [Hin|Hin]; [exact Hin|]; cbn [In] in Hin;
    repeat match goal with
           | H : _ \/ _ |- _ => destruct H as [H|H]
           end;
    try contradiction; discriminate.
Qed.

Lemma record_urdu_audio_needs_capture_witness :
  recorded (with_recorded [] env_ok) = [] /\
  fst (record_urdu_audio urdu_audio_wav 0 (with_recorded [] env_ok) empty_state)
  = Return false /\
  files (snd (record_urdu_audio urdu_audio_wav 0 (with_recorded [] env_ok) empty_state))
  = [].
Proof.
  split; [reflexivity|].
  split; [reflexivity|].
  apply (@record_urdu_audio_needs_capture urdu_audio_wav 0
           (with_recorded [] env_ok) empty_state).
  right. right. reflexivity.
Defined.

(** A Unicode stream prints every line; a legacy one prints no line with
    a pictograph in it. *)
Lemma can_print_unicode (env : Env) (text : str) :
  stdout env = UnicodeStream -> can_print env text = true.
Proof.
  intros H. unfold can_print. rewrite H.
  induction text as [|c t IH]; [reflexivity | exact IH].
Qed.

Lemma legacy_no_pictograph table error_text (c : N) :
  is_pictograph c = true -> printable (LegacyStream table error_text) c = false.
Proof.
  intros H. unfold printable. rewrite H. cbn [negb].
  rewrite andb_false_r, orb_false_r.
  apply N.ltb_ge. unfold is_pictograph in H.
  apply orb_prop in H as [H|H]; [apply orb_prop in H as [H|H]|].
  - apply N.eqb_eq in H. lia.
  - apply N.eqb_eq in H. lia.
  - apply andb_prop in H as [H _]. apply N.leb_le in H. lia.
Qed.

Lemma can_print_pictograph (env : Env) (pre : str) (c : N) (rest : str) :
  is_pictograph c = true ->
  can_print env (pre ++ c :: rest) = true -> stdout env = UnicodeStream.
Proof.
  intros Hc. unfold can_print.
  destruct (stdout env) as [|table error_text]; [reflexivity|].
  rewrite forallb_app. cbn [forallb].
  rewrite (legacy_no_pictograph table error_text c Hc).
  cbn [andb]. rewrite andb_false_r. discriminate.
Qed.

(** A recording that reports success has printed its prompt, so the
    console is a Unicode stream. *)
Lemma record_urdu_audio_true_unicode filename duration env st st1 :
  record_urdu_audio filename duration env st = (Return true, st1) ->
  stdout env = UnicodeStream.
Proof.
  record_paths env; intros H; inversion H; subst; clear H.
  match goal with
  | Hp : can_print ?e ([0xA; 0x1F3A4]%N ++ ?t) = true |- _ =>
      exact (@can_print_pictograph e [0xA%N] 0x1F3A4%N t eq_refl Hp)
  end.
Qed.




(** What code page 1252 says of the lines of [record_urdu_audio]. *)
Example cp1252_refuses_the_lines :
  exn_str (encode_error cp1252 (recording_prompt 7))
  = lit "'charmap' codec can't encode character '\U0001f3a4' in position 1: character maps to <undefined>" /\
  exn_str (encode_error cp1252 (recording_failed empty_buffer_error))
  = lit "'charmap' codec can't encode character '\u274c' in position 0: character maps to <undefined>" /\
  can_print env_cp1252 (lit "Falling back to whisper-small") = true.
Proof. repeat split; reflexivity. Qed.

(** The same devices and models behind a console on code page 1252: the
    prompt cannot be printed, the handler's line cannot either, and the
    function raises. *)
Example record_urdu_audio_on_cp1252 :
  record_urdu_audio urdu_audio_wav 7 env_cp1252 empty_state
  = (Raise (encode_error cp1252
              (recording_failed (encode_error cp1252 (recording_prompt 7)))),
     log (Enter f_record_urdu_audio) empty_state).
Proof. reflexivity. Qed.

(* ===================================================================== *)
(** * More on the orchestrator                                            *)
(* ===================================================================== *)

(** One console line: printed, or refused by the stream. *)
Lemma print_cases (text : str) (env : Env) (st : State) :
  (can_print env text = true /\
   print text env st = (Return tt, log (Console text) st)) \/
  (can_print env text = false /\
   print text env st = (Raise (encode_error (stdout env) text), st)).
Proof. unfold print. destruct (can_print env text); auto. Qed.

(** What can leave a stage: an exception that is no [Exception], or the
    exception of the handler's own [print]. *)
Lemma stage_escape {A} (f : func) (body : M A) (line : exn -> str) (v : A)
    (env : Env) (st : State) (x : exn) (st' : State) :
  (enter f ;; try_except_Exception body (fun e => print (line e) ;; ret v)) env st
  = (Raise x, st') ->
  isinstance_Exception x = false \/ print_failure env x.
Proof.
  unfold bind, enter, try_except_Exception, ret.
  destruct (body env (log (Enter f) st)) as [[a|e] s1]; [discriminate|].
  destruct (isinstance_Exception e) eqn:Ee.
  - destruct (print_cases (line e) env s1) as [[Hp ->]|[Hp ->]];
      [discriminate|].
    intros H. inversion H; subst. right. exists (line e). auto.
  - intros H. inversion H; subst. now left.
Qed.

Lemma record_urdu_audio_escape filename duration env st x st' :
  record_urdu_audio filename duration env st = (Raise x, st') ->
  isinstance_Exception x = false \/ print_failure env x.
Proof.
  unfold record_urdu_audio.
  apply (@stage_escape bool f_record_urdu_audio _
           (fun e => [0x274C]%N ++ lit " Recording failed: " ++ exn_str e) false).
Qed.

Lemma transcribe_urdu_escape audio_path env st x st' :
  transcribe_urdu audio_path env st = (Raise x, st') ->
  isinstance_Exception x = false \/ print_failure env x.
Proof.
  unfold transcribe_urdu.
  apply (@stage_escape (option str) f_transcribe_urdu _
           (fun e => [0x274C]%N ++ lit " Transcription failed: " ++ exn_str e) None).
Qed.

Lemma translate_urdu_escape v env st x st' :
  translate_urdu v env st = (Raise x, st') ->
  isinstance_Exception x = false \/ print_failure env x.
Proof.
  unfold translate_urdu.
  apply (@stage_escape (option str) f_translate_urdu _
           (fun e => [0x274C]%N ++ lit " Translation failed: " ++ exn_str e) None).
Qed.

(** The count of a stage other than the one the function belongs to. *)
Ltac other_stage lem :=
  match goal with
  | |- invocations ?s (snd (?m ?env ?st)) = _ =>
      let H := fresh "H" in
      assert (H : framed (same_invocations s) m) by (apply lem; discriminate);
      specialize (H env st); unfold same_invocations in H;
      rewrite H; simpl; lia
  end.

(** Each stage function counts once as a start of its own stage. *)
Lemma stage_own_count {A} (s : stage) (f : func) (body : M A) (env : Env) (st : State) :
  starts s (Enter f) = true ->
  framed (same_invocations s) body ->
  invocations s (snd ((enter f ;; body) env st)) = S (invocations s st).
Proof.
  intros Hs Hb. unfold bind, enter.
  pose proof (Hb env (log (Enter f) st)) as H.
  unfold same_invocations in H.
  rewrite H, invocations_log, Hs. lia.
Qed.

Lemma record_urdu_audio_starts filename duration env st :
  starts_only Recording st (snd (record_urdu_audio filename duration env st)).
Proof.
  intros s. destruct s; try (other_stage record_urdu_audio_count).
  unfold record_urdu_audio. rewrite stage_own_count; [simpl; lia | reflexivity|].
  frame_count.
Qed.

Lemma transcribe_urdu_starts audio_path env st :
  starts_only Transcribing st (snd (transcribe_urdu audio_path env st)).
Proof.
  intros s. destruct s; try (other_stage transcribe_urdu_count).
  unfold transcribe_urdu. rewrite stage_own_count; [simpl; lia | reflexivity|].
  frame_count.
Qed.

Lemma translate_urdu_starts v env st :
  starts_only Translating st (snd (translate_urdu v env st)).
Proof.
  intros s. destruct s; try (other_stage translate_urdu_count).
  unfold translate_urdu. rewrite stage_own_count; [simpl; lia | reflexivity|].
  frame_count.
Qed.

Lemma starts_none_log_console (text : str) (st : State) :
  starts_none st (log (Console text) st).
Proof. intros s. rewrite invocations_log. destruct s; simpl; lia. Qed.

(** Speech starts once the line before it is printed. *)
Lemma speak_starts e env st r st' :
  speak e env st = (r, st') ->
  starts_only Speaking st st' \/
  (starts_none st st' /\ exists x, r = Raise x /\ print_failure env x).
Proof.
  unfold speak. unfold bind at 1.
  destruct (print_cases ([0xA; 0x1F50A]%N ++ lit " Speaking...") env st)
    as [[Hp ->]|[Hp ->]]; intros E.
  - left. intros s. revert E. unfold bind, extcall.
    destruct (raises env (tts_say e)); cbv beta iota;
      [|destruct (raises env tts_runAndWait)];
      intros E; inversion E; subst;
      rewrite !invocations_log; destruct s; simpl; lia.
  - right. inversion E; subst. split; [intros s; reflexivity|].
    eexists. split; [reflexivity|]. eexists. eauto.
Qed.

Lemma remove_file_starts path env st :
  starts_only Cleanup st (snd (remove_file path env st)).
Proof.
  intros s. unfold remove_file, bind, extcall.
  destruct (raises env (os_remove path)); cbv beta iota;
    [|destruct (file_exists path _)]; cbn [snd];
    rewrite ?invocations_unlink, invocations_log; destruct s; simpl; lia.
Qed.

Section RunStarts.

Variable env : Env.

Lemma run_record_starts st r st1 :
  run_record env st = (r, st1) -> starts_only Recording st st1.
Proof.
  intros E s. unfold run_record in E.
  pose proof (record_urdu_audio_starts urdu_audio_wav 7 env
                (log (Enter f_main) st) s) as H.
  rewrite E in H. cbn [snd] in H.
  rewrite H, invocations_log. destruct s; simpl; lia.
Qed.

Lemma run_transcribe_starts st1 r st2 :
  run_transcribe env st1 = (r, st2) ->
  starts_only Transcribing st1 st2 \/
  (starts_none st1 st2 /\ exists x, r = Raise x /\ print_failure env x).
Proof.
  unfold run_transcribe, bind.
  destruct (print_cases ([0xA; 0x1F50D]%N ++ lit " Transcribing...") env st1)
    as [[Hp ->]|[Hp ->]]; intros E.
  - left. intros s.
    match type of E with
    | transcribe_urdu _ _ ?st0 = _ =>
        pose proof (transcribe_urdu_starts urdu_audio_wav env st0 s) as H
    end.
    rewrite E in H. cbn [snd] in H.
    rewrite H, invocations_log. destruct s; simpl; lia.
  - right. inversion E; subst. split; [intros s; reflexivity|].
    eexists. split; [reflexivity|]. eexists. eauto.
Qed.

Lemma run_translate_starts u st2 r st3 :
  run_translate env u st2 = (r, st3) ->
  starts_only Translating st2 st3 \/
  (starts_none st2 st3 /\ exists x, r = Raise x /\ print_failure env x).
Proof.
  unfold run_translate. unfold bind at 1.
  destruct (print_cases ([0x1F4DD]%N ++ lit " Urdu: " ++ u) env st2)
    as [[Hp ->]|[Hp ->]].
  2:{ intros E. right. inversion E; subst. split; [intros s; reflexivity|].
      eexists. split; [reflexivity|]. eexists. eauto. }
  unfold bind at 1.
  match goal with
  | |- context [print ?t env ?st0] =>
      destruct (print_cases t env st0) as [[Hq ->]|[Hq ->]]
  end; intros E.
  - left. intros s.
    match type of E with
    | translate_urdu _ _ ?st0 = _ =>
        pose proof (translate_urdu_starts (Some u) env st0 s) as H
    end.
    rewrite E in H. cbn [snd] in H.
    rewrite H, !invocations_log. destruct s; simpl; lia.
  - right. inversion E; subst.
    split; [apply starts_none_log_console|].
    eexists. split; [reflexivity|]. eexists. eauto.
Qed.

Lemma run_speak_starts e st3 r st4 :
  run_speak env e st3 = (r, st4) ->
  starts_only Speaking st3 st4 \/
  (starts_none st3 st4 /\ exists x, r = Raise x /\ print_failure env x).
Proof.
  unfold run_speak. unfold bind at 1.
  destruct (print_cases ([0x2705]%N ++ lit " English: " ++ e) env st3)
    as [[Hp ->]|[Hp ->]]; intros E.
  - match type of E with
    | speak _ _ ?st0 = _ =>
        destruct (@speak_starts e env st0 r st4 E) as [H|[H (x & Hx & Hf)]]
    end.
    + left. intros s. rewrite (H s), invocations_log. destruct s; simpl; lia.
    + right. split.
      * intros s. rewrite (H s), invocations_log. destruct s; simpl; lia.
      * exists x. auto.
  - right. inversion E; subst. split; [intros s; reflexivity|].
    eexists. split; [reflexivity|]. eexists. eauto.
Qed.

End RunStarts.

Arguments run_record_starts [env st r st1] _ _.
Arguments run_transcribe_starts [env st1 r st2] _.
Arguments run_translate_starts [env u st2 r st3] _.
Arguments run_speak_starts [env e st3 r st4] _.

(** Closes a goal about the counts of one stage [s] from the facts about
    the stages run so far. *)
Ltac count_stages s :=
  repeat match goal with
         | H : starts_only _ _ _ |- _ => rewrite (H s); clear H
         | H : starts_none _ _ |- _ => rewrite (H s); clear H
         end;
  first [ simpl; lia | destruct s; simpl; lia ].

(** The stages started are the first [k]. *)
Ltac prefix k :=
  exists k; split; [lia|];
  let s := fresh "s" in intros s; cbn [snd]; count_stages s.

Ltac some_prefix :=
  first [ solve [prefix 1%nat] | solve [prefix 2%nat] | solve [prefix 3%nat]
        | solve [prefix 4%nat] | solve [prefix 5%nat] ].

(** Whatever happens, [main] starts the stages in pipeline order, each at
    most once, and never goes back: the stages started by a run are the
    first [k] of recording, transcription, translation, speech and
    removal, for some [k] between 1 and 5. *)
Theorem main_starts_a_prefix (env : Env) (st : State) :
  exists k, (1 <= k <= 5)%nat /\ started_prefix k st (snd (main env st)).
Proof.
  rewrite main_unfold.
  destruct (run_record env st) as [[[|]|x1] st1] eqn:E1;
    pose proof (run_record_starts E1) as C1; try some_prefix.
  destruct (run_transcribe env st1) as [[[u|]|x2] st2] eqn:E2;
    destruct (run_transcribe_starts E2) as [C2|[C2 (y2 & Hy2 & _)]];
    try discriminate Hy2; try some_prefix.
  destruct (truthy u); try some_prefix.
  destruct (run_translate env u st2) as [[[e|]|x3] st3] eqn:E3;
    destruct (run_translate_starts E3) as [C3|[C3 (y3 & Hy3 & _)]];
    try discriminate Hy3; try some_prefix.
  destruct (truthy e); try some_prefix.
  pose proof (remove_file_starts urdu_audio_wav env) as C5.
  destruct (run_speak env e st3) as [[[]|x4] st4] eqn:E4;
    destruct (run_speak_starts E4) as [C4|[C4 (y4 & Hy4 & _)]];
    try discriminate Hy4; specialize (C5 st4); some_prefix.
Qed.

Section RunEscapes.

Variable env : Env.

Lemma run_record_escape st x st1 :
  run_record env st = (Raise x, st1) ->
  isinstance_Exception x = false \/ print_failure env x.
Proof. unfold run_record. apply record_urdu_audio_escape. Qed.

Lemma run_transcribe_escape st1 x st2 :
  run_transcribe env st1 = (Raise x, st2) ->
  isinstance_Exception x = false \/ print_failure env x.
Proof.
  unfold run_transcribe, bind.
  destruct (print_cases ([0xA; 0x1F50D]%N ++ lit " Transcribing...") env st1)
    as [[Hp ->]|[Hp ->]]; intros E.
  - eapply transcribe_urdu_escape. exact E.
  - inversion E; subst. right. eexists. eauto.
Qed.

Lemma run_translate_escape u st2 x st3 :
  run_translate env u st2 = (Raise x, st3) ->
  isinstance_Exception x = false \/ print_failure env x.
Proof.
  unfold run_translate. unfold bind at 1.
  destruct (print_cases ([0x1F4DD]%N ++ lit " Urdu: " ++ u) env st2)
    as [[Hp ->]|[Hp ->]].
  2:{ intros E. inversion E; subst. right. eexists. eauto. }
  unfold bind at 1.
  match goal with
  | |- context [print ?t env ?st0] =>
      destruct (print_cases t env st0) as [[Hq ->]|[Hq ->]]
  end; intros E.
  - eapply translate_urdu_escape. exact E.
  - inversion E; subst. right. eexists. eauto.
Qed.

End RunEscapes.

Arguments run_record_escape [env st x st1] _.
Arguments run_transcribe_escape [env st1 x st2] _.
Arguments run_translate_escape [env u st2 x st3] _.

(** An exception that leaves [main] is of one of three kinds: it is no
    instance of [Exception] (an interrupt that passed through a stage); or
    it is the UnicodeEncodeError of a [print] whose line the console
    cannot encode; or it was raised after speech had been started, in the
    unprotected tail of [main]. *)
Theorem main_raises_only (env : Env) (st : State) (x : exn) :
  fst (main env st) = Raise x ->
  isinstance_Exception x = false \/
  print_failure env x \/
  invocations Speaking (snd (main env st)) = S (invocations Speaking st).
Proof.
  assert (L : forall y, isinstance_Exception y = false \/ print_failure env y ->
                        isinstance_Exception y = false \/ print_failure env y \/
                        invocations Speaking (snd (main env st))
                        = S (invocations Speaking st)) by tauto.
  revert L. rewrite main_unfold. intros L.
  destruct (run_record env st) as [[[|]|x1] st1] eqn:E1;
    pose proof (run_record_starts E1) as C1; cbn [fst]; try discriminate.
  2:{ intros H; injection H as ->. apply L. exact (run_record_escape E1). }
  destruct (run_transcribe env st1) as [[[u|]|x2] st2] eqn:E2;
    cbn [fst]; try discriminate.
  2:{ intros H; injection H as ->. apply L. exact (run_transcribe_escape E2). }
  destruct (run_transcribe_starts E2) as [C2|[_ (y2 & Hy2 & _)]];
    [|discriminate Hy2].
  destruct (truthy u); cbn [fst]; try discriminate.
  destruct (run_translate env u st2) as [[[e|]|x3] st3] eqn:E3;
    cbn [fst]; try discriminate.
  2:{ intros H; injection H as ->. apply L. exact (run_translate_escape E3). }
  destruct (run_translate_starts E3) as [C3|[_ (y3 & Hy3 & _)]];
    [|discriminate Hy3].
  destruct (truthy e); cbn [fst]; try discriminate.
  clear L.
  destruct (run_speak env e st3) as [[[]|x4] st4] eqn:E4;
    destruct (run_speak_starts E4) as [C4|[C4 (y4 & Hy4 & Hf4)]];
    try discriminate Hy4.
  - pose proof (remove_file_starts urdu_audio_wav env st4) as C5.
    intros _. right. right. count_stages Speaking.
  - intros H. cbn [fst snd] in *. right. right. count_stages Speaking.
  - intros H. cbn [fst snd] in *. injection H as ->. injection Hy4 as ->.
    right. left. exact Hf4.
Qed.

Lemma main_raises_only_witness :
  fst (main env_tts_fails empty_state)
  = Raise (Exc "RuntimeError" (lit "run loop already started")) /\
  invocations Speaking (snd (main env_tts_fails empty_state)) = 1%nat.
Proof.
  assert (H : fst (main env_tts_fails empty_state)
              = Raise (Exc "RuntimeError" (lit "run loop already started")))
    by reflexivity.
  split; [exact H|].
  destruct (main_raises_only env_tts_fails empty_state H)
    as [Hx|[(text & Hp & _)|Hs]];
    [ discriminate Hx
    | rewrite (@can_print_unicode env_tts_fails text eq_refl) in Hp;
      discriminate Hp
    | exact Hs ].
Defined.

(** On a console that cannot encode the pictographs, an instance of
    [Exception] leaves [main] before any model is called. *)
Example main_on_cp1252 :
  main env_cp1252 empty_state
  = (Raise (encode_error cp1252
              (recording_failed (encode_error cp1252 (recording_prompt 7)))),
     log (Enter f_record_urdu_audio) (log (Enter f_main) empty_state)).
Proof. reflexivity. Qed.

(** Speech is not protected: when a speech call raises, whatever it
    raises, the exception leaves [main], the removal is not reached and
    the recording stays on disk. *)
Theorem main_speech_failure_escapes (env : Env) (st : State) (x : exn) (st4 : State) :
  speech_raises env st x st4 ->
  main env st = (Raise x, st4) /\
  invocations Cleanup st4 = invocations Cleanup st /\
  file_exists urdu_audio_wav st4 = true.
Proof.
  intros [st1 u st2 e st3 x' st4' E1 E2 Hu E3 He E4].
  rewrite main_unfold, E1, E2, Hu, E3, He, E4.
  split; [reflexivity|]. split.
  - rewrite (run_speak_count E4), (run_translate_count E3),
      (run_transcribe_count E2) by discriminate.
    apply (run_record_count E1). discriminate.
  - unfold file_exists.
    rewrite (run_speak_files E4), (run_translate_files E3),
      (run_transcribe_files E2).
    eapply record_urdu_audio_writes_file. exact E1.
Qed.

Lemma main_speech_failure_escapes_witness :
  exists st4,
    speech_raises env_tts_fails empty_state
      (Exc "RuntimeError" (lit "run loop already started")) st4 /\
    main env_tts_fails empty_state
    = (Raise (Exc "RuntimeError" (lit "run loop already started")), st4) /\
    file_exists urdu_audio_wav st4 = true.
Proof.
  eexists.
  assert (H : speech_raises env_tts_fails empty_state
                (Exc "RuntimeError" (lit "run loop already started"))
                (snd (main env_tts_fails empty_state))).
  { eapply speech_raises_at; vm_compute; reflexivity. }
  split; [exact H|].
  destruct (main_speech_failure_escapes H) as (Hm & _ & Hf).
  split; [exact Hm | exact Hf].
Defined.

Lemma print_unicode (text : str) (env : Env) (st : State) :
  stdout env = UnicodeStream ->
  print text env st = (Return tt, log (Console text) st).
Proof. intros H. unfold print. now rewrite (@can_print_unicode env text H). Qed.




(** A transcript of one or two characters is dropped without a word:
    [translate_urdu] rejects it, and [main] returns with nothing printed
    after its two progress lines, no failure line among them. *)
Theorem main_drops_short_transcript
    (env : Env) (st st1 : State) (u : str) (st2 : State) :
  run_record env st = (Return true, st1) ->
  run_transcribe env st1 = (Return (Some u), st2) ->
  u <> [] -> (len u < 3)%Z ->
  main env st
  = (Return tt,
     log (Enter f_translate_urdu)
       (log (Console ([0xA; 0x1F30D]%N ++ lit " Translating..."))
          (log (Console ([0x1F4DD]%N ++ lit " Urdu: " ++ u)) st2))).
Proof.
  intros E1 E2 Hne Hlen.
  rewrite main_unfold, E1, E2.
  assert (Hu : truthy u = true) by (destruct u; [congruence | reflexivity]).
  rewrite Hu.
  assert (Hout : stdout env = UnicodeStream).
  { unfold run_record in E1. eapply record_urdu_audio_true_unicode. exact E1. }
  unfold run_translate, bind. rewrite !(@print_unicode _ env _ Hout).
  unfold translate_urdu, bind, try_except_Exception, enter.
  apply rejected_iff in Hlen. rewrite Hlen. reflexivity.
Qed.

Lemma main_drops_short_transcript_witness :
  heard env_short_word = U_HE /\
  fst (main env_short_word empty_state) = Return tt /\
  invocations Speaking (snd (main env_short_word empty_state)) = 0%nat.
Proof.
  split; [reflexivity|].
  assert (E1 : run_record env_short_word empty_state
               = (Return true, snd (run_record env_short_word empty_state)))
    by reflexivity.
  assert (E2 : run_transcribe env_short_word (snd (run_record env_short_word empty_state))
               = (Return (Some U_HE),
                  snd (run_transcribe env_short_word
                         (snd (run_record env_short_word empty_state)))))
    by reflexivity.
  rewrite (@main_drops_short_transcript env_short_word empty_state _ U_HE _ E1 E2
             ltac:(discriminate) ltac:(reflexivity)).
  split; reflexivity.
Defined.

(* ===================================================================== *)
(** * Loading the models                                                  *)
(* ===================================================================== *)

(** Splits a run of [load_models] into its paths. *)
Ltac load_paths env :=
  unfold Loader.load_models, Loader.try_except_Exception, Loader.try_except,
    Loader.bind, Loader.call, Loader.print, Loader.ret, Loader.raise;
  cbv zeta;
  repeat (first
    [ match goal with
      | |- context [Loader.ascii_only ?t] =>
          first [ change (Loader.ascii_only t) with true
                | change (Loader.ascii_only t) with false ]
      end
    | match goal with
      | |- context [match env ?c with _ => _ end] =>
          destruct (env c) as [?exc|] eqn:?
      end
    | match goal with
      | |- context [if isinstance_Exception ?e then _ else _] =>
          destruct (isinstance_Exception e) eqn:?
      end ];
    cbv beta iota zeta).

Ltac flatten_load_trace := cbn [fst snd]; rewrite <- ?app_assoc; cbn [app].

(** All or nothing.  When [load_models] returns, the dict holds exactly the
    four entries the stages look up, so none of those lookups can fail;
    the recognizer is the medium one, or the small one when the medium one
    could not be loaded; and the last thing done was to set the speech
    rate to 150. *)
Theorem load_models_all_or_nothing
    (env : Loader.LoadEnv) (tr : list Loader.load_event)
    (d : Loader.dict) (tr' : list Loader.load_event) :
  Loader.load_models env tr = (Return d, tr') ->
  ((d = Loader.bundle "medium" /\
    env (Loader.whisper_load_model "medium") = None) \/
   (d = Loader.bundle "small" /\
    env (Loader.whisper_load_model "medium") <> None /\
    env (Loader.whisper_load_model "small") = None)) /\
  Loader.dict_get "whisper" d <> None /\
  Loader.dict_get "tokenizer" d <> None /\
  Loader.dict_get "translator" d <> None /\
  Loader.dict_get "tts" d <> None /\
  last tr' (Loader.Line []) = Loader.Loading (Loader.tts_setProperty "rate" 150).
Proof.
  load_paths env; intros H; inversion H; subst; clear H.
  all: split;
    [ first [ left; split; reflexivity
            | right; split; [reflexivity|]; split; [discriminate | reflexivity] ]
    | repeat (split; [discriminate|]); apply last_last ].
Qed.

Lemma load_models_all_or_nothing_witness :
  Loader.load_models Loader.medium_interrupted []
  = (Return (Loader.bundle "small"),
     snd (Loader.load_models Loader.medium_interrupted [])) /\
  Loader.dict_get "whisper" (Loader.bundle "small") <> None.
Proof.
  assert (H : Loader.load_models Loader.medium_interrupted []
              = (Return (Loader.bundle "small"),
                 snd (Loader.load_models Loader.medium_interrupted [])))
    by reflexivity.
  split; [exact H|].
  exact (proj1 (proj2 (load_models_all_or_nothing _ _ H))).
Defined.

(** The fallback.  If loading the medium recognizer raises anything at
    all -- the handler is a bare [except], so even an interrupt -- the
    fallback line is printed and the small recognizer is loaded next.  If
    it loads, the small one is never asked for and the line is never
    printed. *)
Theorem load_models_fallback (env : Loader.LoadEnv) (tr : list Loader.load_event) :
  match env (Loader.whisper_load_model "medium") with
  | Some _ =>
      exists rest,
        snd (Loader.load_models env tr)
        = tr ++ Loader.Loading (Loader.whisper_load_model "medium")
             :: Loader.Line Loader.falling_back
             :: Loader.Loading (Loader.whisper_load_model "small") :: rest
  | None =>
      exists rest,
        snd (Loader.load_models env tr)
        = tr ++ Loader.Loading (Loader.whisper_load_model "medium") :: rest /\
        ~ In (Loader.Loading (Loader.whisper_load_model "small")) rest /\
        ~ In (Loader.Line Loader.falling_back) rest
  end.
Proof.
  destruct (env (Loader.whisper_load_model "medium")) as [e0|] eqn:E0.
  - load_paths env; try congruence;
      flatten_load_trace; eexists; reflexivity.
  - load_paths env; try congruence;
      flatten_load_trace; eexists; (split; [reflexivity|]);
      split; cbn [In]; intros H;
      repeat match goal with
             | H : _ \/ _ |- _ => destruct H as [H|H]
             end;
      try contradiction; discriminate.
Qed.

(** Failure is fatal.  When [load_models] raises, a load other than that
    of the medium recognizer raised some [x].  If [x] is no instance of
    [Exception] it leaves unchanged and nothing is printed.  If it is one,
    the failure line is printed and [x] is raised again -- unless the
    console cannot encode the line: then the line is not printed and the
    exception that leaves is the one of [print], in place of [x]. *)
Theorem load_models_failure_is_fatal
    (env : Loader.LoadEnv) (tr : list Loader.load_event)
    (e : exn) (tr' : list Loader.load_event) :
  Loader.load_models env tr = (Raise e, tr') ->
  exists c x,
    c <> Loader.whisper_load_model "medium" /\
    env c = Some x /\
    In (Loader.Loading c) tr' /\
    if isinstance_Exception x
    then match env (Loader.stdout_write (Loader.loading_failed x)) with
         | None =>
             e = x /\
             last tr' (Loader.Line []) = Loader.Line (Loader.loading_failed x)
         | Some y =>
             e = y /\
             last tr' (Loader.Line []) = Loader.Loading c
         end
    else e = x /\ last tr' (Loader.Line []) = Loader.Loading c.
Proof.
  intros H.
  assert (G : exists c x,
             c <> Loader.whisper_load_model "medium" /\
             env c = Some x /\
             In (Loader.Loading c) tr' /\
             (isinstance_Exception x = true ->
              env (Loader.stdout_write (Loader.loading_failed x)) = None ->
              e = x /\
              last tr' (Loader.Line []) = Loader.Line (Loader.loading_failed x)) /\
             (isinstance_Exception x = true ->
              forall y,
                env (Loader.stdout_write (Loader.loading_failed x)) = Some y ->
                e = y /\ last tr' (Loader.Line []) = Loader.Loading c) /\
             (isinstance_Exception x = false ->
              e = x /\ last tr' (Loader.Line []) = Loader.Loading c)).
  { revert H. load_paths env; intros H; inversion H; subst; clear H;
      match goal with
      | Hc : env ?c = Some ?x, Hi : isinstance_Exception ?x = ?b |- _ =>
          exists c, x; split; [discriminate|]; split; [exact Hc|];
          split; [rewrite ?in_app_iff; cbn [In]; tauto|];
          split; [|split];
          solve [ intros; congruence
                | intros; split; [congruence | apply last_last]
                | intros ? ? ?; split; [congruence | apply last_last] ]
      end. }
  destruct G as (c & x & Hc & He & Hin & Ht & Hw & Hf).
  exists c, x. split; [exact Hc|]. split; [exact He|]. split; [exact Hin|].
  destruct (isinstance_Exception x); [|now apply Hf].
  destruct (env (Loader.stdout_write (Loader.loading_failed x))) as [y|].
  - now apply Hw.
  - now apply Ht.
Qed.

Lemma load_models_failure_is_fatal_witness :
  exists tr',
    Loader.load_models Loader.translator_missing []
    = (Raise (Exc "OSError" (lit "model not found")), tr') /\
    last tr' (Loader.Line [])
    = Loader.Line (Loader.loading_failed (Exc "OSError" (lit "model not found"))).
Proof.
  eexists.
  assert (H : Loader.load_models Loader.translator_missing []
              = (Raise (Exc "OSError" (lit "model not found")),
                 snd (Loader.load_models Loader.translator_missing [])))
    by reflexivity.
  split; [exact H|].
  destruct (load_models_failure_is_fatal _ _ H) as (c & x & _ & Hx & _ & Hl).
  destruct c; try discriminate Hx.
  injection Hx as <-. destruct Hl as [_ Hl]. exact Hl.
Defined.

(** On a console that cannot encode the cross mark, what leaves is the
    exception of [print]; the failure of the load is not reported. *)
Example load_models_on_cp1252 :
  Loader.load_models Loader.translator_missing_cp1252 []
  = (Raise (Exc "UnicodeEncodeError"
              (lit "'charmap' codec can't encode character '\u274c' in position 0: character maps to <undefined>")),
     [ Loader.Loading (Loader.whisper_load_model "medium");
       Loader.Loading (Loader.MarianTokenizer_from_pretrained Loader.model_name);
       Loader.Loading (Loader.MarianMTModel_from_pretrained Loader.model_name) ]).
Proof. reflexivity. Qed.
